(** * cppzstd: a C++ RAII layer over the zstd engine

    Shallow embedding of [cppzstd.h] (namespace [Zstd]).

    The zstd library itself is an external collaborator: the header only
    orchestrates calls into it.  The engine is therefore a record of
    functions ([Engine]), one field per C entry point the header calls, and
    what zstd.h documents about those entry points is kept apart, as named
    propositions over an engine (section [Contract]).  [Engine] is a class, so
    that the embedded functions read as the header does.

    Conventions.
    - [std::size_t], [unsigned] and [unsigned long long] values are [N]; the
      header does no arithmetic on them, it only forwards and compares them.
      The target is LP64: [size_t] and [unsigned long long] both have 64
      bits, so [return size] in [frameContentSize] converts nothing.
    - [int] values (compression levels) are [Z].
    - A [(const void*, size_t)] pair is the [list byte] it designates.
    - Memory is unbounded: [std::vector::resize] does not fail.
    - A C++ exception is a value of [exn]; a call yields an [outcome]. *)

From Stdlib Require Import ZArith NArith Lia.
From Stdlib Require Import Strings.Byte.
From stdpp Require Import base list strings.

Open Scope N_scope.

(** ** Exceptions *)

(** [ZError : std::runtime_error], [ZUnknownSize : ZError]; both inherit the
    constructor taking the message.  [bad_alloc] is [std::bad_alloc]. *)
Inductive exn : Type :=
  | ZError (what : string)
  | ZUnknownSize (what : string)
  | bad_alloc.

Inductive outcome (A : Type) : Type :=
  | Return (a : A)
  | Throw (e : exn).
Arguments Return {A} a.
Arguments Throw {A} e.

(** The dynamic type is exactly [ZError], not a class derived from it. *)
Definition is_plain_ZError (e : exn) : bool :=
  match e with ZError _ => true | _ => false end.

Definition is_ZUnknownSize (e : exn) : bool :=
  match e with ZUnknownSize _ => true | _ => false end.

(** What a handler [catch (ZError const&)] accepts: the class and the class
    derived from it. *)
Definition caught_as_ZError (e : exn) : bool :=
  match e with ZError _ | ZUnknownSize _ => true | bad_alloc => false end.

Definition what (e : exn) : string :=
  match e with
  | ZError m | ZUnknownSize m => m
  | bad_alloc => "std::bad_alloc"
  end.

(** [msg] has [name] as a contiguous part. *)
Definition includes (msg name : string) : Prop :=
  exists pre post : string, msg = pre +:+ name +:+ post.

(** ** Buffers *)

Definition buffer := list byte.

Definition size_of (b : buffer) : N := N.of_nat (length b).

(** [v.resize(n)] on a [std::vector<char>]: the first [n] elements are kept,
    new elements are value-initialised. *)
Definition vector_resize (n : N) (v : buffer) : buffer :=
  resize (N.to_nat n) x00 v.

(** The engine stores [out] at the start of the region [mem]. The region's
    extent does not change; bytes past its end are not part of it. *)
Definition write_bytes (mem out : buffer) : buffer :=
  take (length mem) out ++ drop (length out) mem.

(** ** The engine *)

(** The part of zstd.h (and zdict.h) that the header calls.  An engine call
    that writes through a [void* dst] returns the bytes it stored there; a
    call on a context returns the context as the call left it. *)
Class Engine : Type := {
  ZSTD_CCtx : Type;
  ZSTD_DCtx : Type;
  ZSTD_createCCtx : option ZSTD_CCtx;        (* [None] is [nullptr] *)
  ZSTD_createDCtx : option ZSTD_DCtx;
  ZSTD_compressBound : N -> N;
  ZSTD_isError : N -> N;
  ZSTD_getErrorName : N -> string;
  ZSTD_maxCLevel : Z;
  ZSTD_compressCCtx :
    ZSTD_CCtx -> N -> buffer -> Z -> N * buffer * ZSTD_CCtx;
  ZSTD_decompressDCtx :
    ZSTD_DCtx -> N -> buffer -> N * buffer * ZSTD_DCtx;
  ZSTD_getFrameContentSize : buffer -> N;
  ZDICT_trainFromBuffer : N -> buffer -> list N -> N -> N * buffer;
  ZDICT_isError : N -> N;
  ZDICT_getErrorName : N -> string
}.

(** [#define ZSTD_CONTENTSIZE_UNKNOWN (0ULL - 1)] and
    [#define ZSTD_CONTENTSIZE_ERROR (0ULL - 2)], in 64-bit unsigned
    arithmetic. *)
Definition ull_sub (a b : Z) : N := Z.to_N ((a - b) mod 2 ^ 64).
Definition ZSTD_CONTENTSIZE_UNKNOWN : N := ull_sub 0 1.
Definition ZSTD_CONTENTSIZE_ERROR : N := ull_sub 0 2.

(** ** What is observable of a call *)

Inductive event : Type :=
  | ev_resize (n : N)
  | ev_createCCtx
  | ev_createDCtx
  | ev_compressCCtx (dstCapacity : N) (src : buffer) (level : Z)
  | ev_decompressDCtx (dstCapacity : N) (src : buffer)
  | ev_trainFromBuffer (dictBufferCapacity : N) (samples : buffer)
      (sizes : list N) (nbSamples : N).

Section Calls.
Context {E : Engine}.

(** The calling thread: its two [thread_local] singletons, absent until
    first use, and the calls made so far. *)
Record Thread : Type := {
  compress_instr : option ZSTD_CCtx;
  decompress_instr : option ZSTD_DCtx;
  trace : list event
}.

Definition fresh_thread : Thread :=
  {| compress_instr := None; decompress_instr := None; trace := [] |}.

(** A member function runs on an object the caller passed by reference
    (of type [L]) and on the thread; both survive an exception. *)
Definition M (L A : Type) : Type := L * Thread -> outcome A * (L * Thread).

Definition ret {L A} (a : A) : M L A := fun s => (Return a, s).

Definition bind {L A B} (m : M L A) (f : A -> M L B) : M L B :=
  fun s =>
    match m s with
    | (Return a, s') => f a s'
    | (Throw e, s') => (Throw e, s')
    end.

Definition throw {L A} (e : exn) : M L A := fun s => (Throw e, s).

Definition get_obj {L} : M L L := fun s => (Return (fst s), s).

Definition put_obj {L} (o : L) : M L unit := fun s => (Return tt, (o, snd s)).

Definition get_thread {L} : M L Thread := fun s => (Return (snd s), s).

Definition emit {L} (ev : event) : M L unit :=
  fun s =>
    (Return tt,
     (fst s,
      {| compress_instr := compress_instr (snd s);
         decompress_instr := decompress_instr (snd s);
         trace := trace (snd s) ++ [ev] |})).

Definition set_compress_instr {L} (c : ZSTD_CCtx) : M L unit :=
  fun s =>
    (Return tt,
     (fst s,
      {| compress_instr := Some c;
         decompress_instr := decompress_instr (snd s);
         trace := trace (snd s) |})).

Definition set_decompress_instr {L} (d : ZSTD_DCtx) : M L unit :=
  fun s =>
    (Return tt,
     (fst s,
      {| compress_instr := compress_instr (snd s);
         decompress_instr := Some d;
         trace := trace (snd s) |})).

End Calls.

Notation "x <- m ;; k" := (bind m (fun x => k))
  (at level 100, m at level 99, k at level 200, only parsing).
Notation "m ;;; k" := (bind m (fun _ => k))
  (at level 100, k at level 200, only parsing).

(** [static_cast<bool>(code)] and [if (code)] on an [unsigned]. *)
Definition to_bool (code : N) : bool := negb (code =? 0).

(** A [std::size_t] passed for an [unsigned] parameter (32 bits). *)
Definition to_unsigned (n : N) : N := n mod 2 ^ 32.

(** ** class Compress *)

Module Compress.
Section Compress.
Context {E : Engine}.

(** [Compress::Compress()] *)
Definition ctor {L} : M L ZSTD_CCtx :=
  emit ev_createCCtx ;;;
  match ZSTD_createCCtx with
  | Some mContext => ret mContext
  | None => throw bad_alloc
  end.

(** [instance().mContext]: the [thread_local Compress instr] is
    constructed when control first passes through its declaration; a
    constructor that throws leaves it unconstructed. *)
Definition instance {L} : M L ZSTD_CCtx :=
  t <- get_thread ;;
  match compress_instr t with
  | Some mContext => ret mContext
  | None => mContext <- ctor ;; set_compress_instr mContext ;;; ret mContext
  end.

Definition compressbound (srcSize : N) : N := ZSTD_compressBound srcSize.

(** [dst.resize(n)] on the vector passed by reference. *)
Definition dst_resize (n : N) : M buffer unit :=
  emit (ev_resize n) ;;;
  dst <- get_obj ;;
  put_obj (vector_resize n dst).

(** [ZSTD_compressCCtx(ctx, dst, dstCapacity, src, srcSize, level)], with
    its effect on the destination and on the context. *)
Definition call_compressCCtx (ctx : ZSTD_CCtx) (dstCapacity : N)
    (src : buffer) (compressionLevel : Z) : M buffer N :=
  emit (ev_compressCCtx dstCapacity src compressionLevel) ;;;
  dst <- get_obj ;;
  match ZSTD_compressCCtx ctx dstCapacity src compressionLevel with
  | (res, out, ctx') =>
      put_obj (write_bytes dst out) ;;;
      set_compress_instr ctx' ;;;
      ret res
  end.

(** [static void compress(std::vector<char> &dst, const void* src,
    size_t srcSize, int compressionLevel)] *)
Definition compress (src : buffer) (compressionLevel : Z) : M buffer unit :=
  dst_resize (compressbound (size_of src)) ;;;
  ctx <- instance ;;
  dst <- get_obj ;;
  res <- call_compressCCtx ctx (size_of dst) src compressionLevel ;;
  if to_bool (ZSTD_isError res)
  then throw (ZError ("compress error: " +:+ ZSTD_getErrorName res))
  else dst_resize res.

(** [static std::size_t compress(void* dst, size_t dstCapacity,
    const void* src, size_t srcSize, int compressionLevel)]; the object
    is the memory at [dst]. *)
Definition compress_into (dstCapacity : N) (src : buffer)
    (compressionLevel : Z) : M buffer N :=
  ctx <- instance ;;
  res <- call_compressCCtx ctx dstCapacity src compressionLevel ;;
  if to_bool (ZSTD_isError res)
  then throw (ZError ("compress error: " +:+ ZSTD_getErrorName res))
  else ret res.

End Compress.
End Compress.

(** ** class Decompress *)

Module Decompress.
Section Decompress.
Context {E : Engine}.

(** [Decompress::Decompress()] *)
Definition ctor {L} : M L ZSTD_DCtx :=
  emit ev_createDCtx ;;;
  match ZSTD_createDCtx with
  | Some mContext => ret mContext
  | None => throw bad_alloc
  end.

Definition instance {L} : M L ZSTD_DCtx :=
  t <- get_thread ;;
  match decompress_instr t with
  | Some mContext => ret mContext
  | None => mContext <- ctor ;; set_decompress_instr mContext ;;; ret mContext
  end.

(** [static std::size_t frameContentSize(const void *src, size_t srcSize)];
    it uses no context. *)
Definition frameContentSize (src : buffer) : outcome N :=
  let size := ZSTD_getFrameContentSize src in
  if size =? ZSTD_CONTENTSIZE_UNKNOWN then Throw (ZUnknownSize "unknown size")
  else if size =? ZSTD_CONTENTSIZE_ERROR then Throw (ZError "cannot determine size")
  else Return size.

Definition call_decompressDCtx (ctx : ZSTD_DCtx) (dstCapacity : N)
    (src : buffer) : M buffer N :=
  emit (ev_decompressDCtx dstCapacity src) ;;;
  dst <- get_obj ;;
  match ZSTD_decompressDCtx ctx dstCapacity src with
  | (res, out, ctx') =>
      put_obj (write_bytes dst out) ;;;
      set_decompress_instr ctx' ;;;
      ret res
  end.

(** [static std::size_t decompress(void* dst, size_t dstCapacity,
    const void* src, size_t srcSize)]; the message does say "compress". *)
Definition decompress (dstCapacity : N) (src : buffer) : M buffer N :=
  ctx <- instance ;;
  res <- call_decompressDCtx ctx dstCapacity src ;;
  if to_bool (ZSTD_isError res)
  then throw (ZError ("compress error: " +:+ ZSTD_getErrorName res))
  else ret res.

End Decompress.
End Decompress.

(** ** class TrainData *)

(** What [train] needs of its template argument: [sizeof(SampleType)] and
    the bytes an object occupies in the array behind [samples.data()]. *)
Class SampleType (T : Type) : Type := {
  sizeof : N;
  object_bytes : T -> buffer;
  object_bytes_size : forall x : T, size_of (object_bytes x) = sizeof
}.
Arguments sizeof T {_}.

(** [char] samples: one byte each. *)
#[export] Instance char_SampleType : SampleType byte := {|
  sizeof := 1;
  object_bytes := fun c => [c];
  object_bytes_size := fun _ => eq_refl
|}.

Module TrainData.

Record t : Type := { mDictBuffer : buffer }.

(** The default argument [100*1024*1024], an [int] product that does not
  overflow, converted to [std::size_t]. *)
Definition default_size : N := Z.to_N (100 * 1024 * 1024).

(** [TrainData(std::size_t size)]: [mDictBuffer(size)] holds [size]
  value-initialised chars. *)
Definition ctor (size : N) : t :=
{| mDictBuffer := replicate (N.to_nat size) x00 |}.

Definition ctor_default : t := ctor default_size.

Definition data (this : t) : buffer := mDictBuffer this.
Definition size (this : t) : N := size_of (mDictBuffer this).

Section TrainData.
Context {E : Engine}.

(** [samples.data()] seen as bytes. *)
Definition corpus {T} `{SampleType T} (samples : list T) : buffer :=
  concat (map object_bytes samples).

(** [template <typename SampleType> void train(std::vector<SampleType>
    const &samples)], as it was meant.  As written the header passes the
    vector [sizes] itself where [ZDICT_trainFromBuffer] takes a
    [const size_t*]; there is no such conversion, so no instantiation of
    [train] compiles and a program using the header never calls it.  This
    is the call with [sizes.data()] in that place: it serves to say what
    training could at most do to the buffer, not what the header does.
    The engine takes the number of samples as an [unsigned nbSamples]. *)
Definition train {T} `{SampleType T} (samples : list T) : M t unit :=
  let sizes := replicate (length samples) (sizeof T) in
  let nbSamples := to_unsigned (N.of_nat (length samples)) in
  this <- get_obj ;;
  emit (ev_trainFromBuffer (size this) (corpus samples) sizes nbSamples) ;;;
  match ZDICT_trainFromBuffer (size this) (corpus samples) sizes nbSamples with
  | (err, out) =>
      put_obj {| mDictBuffer := write_bytes (mDictBuffer this) out |} ;;;
      if to_bool (ZDICT_isError err)
      then throw (ZError ("train error: {}" +:+ ZDICT_getErrorName err))
      else ret tt
  end.

(** A call [train(samples)], at whatever sample type it is instantiated. *)
Inductive train_call : Type :=
  | Train (T : Type) (inst : SampleType T) (samples : list T).

(** The call as made by a caller that handles what it throws: the object
    and the thread as the call left them. *)
Definition train_caught (c : train_call) (s : t * Thread) : t * Thread :=
  match c with
  | Train T inst samples => snd (train samples s)
  end.

Definition train_all (calls : list train_call) (s : t * Thread)
    : t * Thread :=
  fold_left (fun s c => train_caught c s) calls s.

End TrainData.
End TrainData.

(** ** What zstd.h promises about the engine *)

Section Contract.
Context {E : Engine}.

(** "Compression levels from 1 up to ZSTD_maxCLevel()". *)
Definition valid_level (L : Z) : Prop := (1 <= L <= ZSTD_maxCLevel)%Z.

(** No object is larger than [PTRDIFF_MAX] bytes. *)
Definition PTRDIFF_MAX : N := 2 ^ 63 - 1.
Definition addressable (b : buffer) : Prop := size_of b <= PTRDIFF_MAX.

(** ZSTD_compressCCtx, "@return : compressed size written into dst
    (<= dstCapacity), or an error code if it fails". *)
Definition compress_reports_written : Prop :=
  forall ctx cap src L res out ctx',
    ZSTD_compressCCtx ctx cap src L = (res, out, ctx') ->
    ZSTD_isError res = 0 ->
    res = size_of out /\ res <= cap.

(** The weaker half of it: the size returned is within [dstCapacity]. *)
Definition compress_within_capacity : Prop :=
  forall ctx cap src L res out ctx',
    ZSTD_compressCCtx ctx cap src L = (res, out, ctx') ->
    ZSTD_isError res = 0 ->
    res <= cap.

(** ZSTD_compressBound, "maximum compressed size in worst case
    single-pass scenario": a destination that large is enough. *)
Definition compress_fits_bound : Prop :=
  forall ctx cap src L res out ctx',
    valid_level L -> addressable src ->
    ZSTD_compressBound (size_of src) <= cap ->
    ZSTD_compressCCtx ctx cap src L = (res, out, ctx') ->
    ZSTD_isError res = 0.

(** ZSTD_decompressDCtx on a frame the compressor wrote, "@return : the
    number of bytes decompressed into dst (<= dstCapacity)": those bytes
    are the source, whatever the contexts have been used for before. *)
Definition decompress_inverts_compress : Prop :=
  forall ctx cap src L res out ctx' dctx dcap,
    ZSTD_compressCCtx ctx cap src L = (res, out, ctx') ->
    ZSTD_isError res = 0 ->
    addressable src -> size_of src <= dcap ->
    ZSTD_isError (size_of src) = 0 /\
    exists dctx', ZSTD_decompressDCtx dctx dcap out = (size_of src, src, dctx').

(** ZSTD_getFrameContentSize on a frame the compressor wrote: the source
    size when the header has the field, ZSTD_CONTENTSIZE_UNKNOWN when it
    has not. *)
Definition frame_declares_source_size : Prop :=
  forall ctx cap src L res out ctx',
    ZSTD_compressCCtx ctx cap src L = (res, out, ctx') ->
    ZSTD_isError res = 0 ->
    ZSTD_getFrameContentSize out = size_of src \/
    ZSTD_getFrameContentSize out = ZSTD_CONTENTSIZE_UNKNOWN.

(** Room beyond ZSTD_compressBound changes neither the code returned nor
    the bytes written. *)
Definition spare_capacity_ignored : Prop :=
  forall ctx cap src L,
    ZSTD_compressBound (size_of src) <= cap ->
    fst (ZSTD_compressCCtx ctx cap src L) =
    fst (ZSTD_compressCCtx ctx (ZSTD_compressBound (size_of src)) src L).

(** The thread has its context, or the engine can make one. *)
Definition compress_ready (t : Thread) : Prop :=
  is_Some (compress_instr t) \/ is_Some ZSTD_createCCtx.
Definition decompress_ready (t : Thread) : Prop :=
  is_Some (decompress_instr t) \/ is_Some ZSTD_createDCtx.

(** The context [Compress::instance()] hands out on thread [t], and the
    engine call it takes to get it. *)
Definition cctx_of (t : Thread) : option ZSTD_CCtx :=
  match compress_instr t with
  | Some ctx => Some ctx
  | None => ZSTD_createCCtx
  end.

Definition cctx_events (t : Thread) : list event :=
  match compress_instr t with
  | Some _ => []
  | None => [ev_createCCtx]
  end.

(** The same for [Decompress::instance()]. *)
Definition dctx_of (t : Thread) : option ZSTD_DCtx :=
  match decompress_instr t with
  | Some ctx => Some ctx
  | None => ZSTD_createDCtx
  end.

Definition dctx_events (t : Thread) : list event :=
  match decompress_instr t with
  | Some _ => []
  | None => [ev_createDCtx]
  end.

End Contract.

(** ** Two engines to run the header on *)

(** Error codes as zstd makes them: [ERROR(name)] is [(size_t)-code] and
    [ZSTD_isError] compares with [ERROR(maxCode)]. *)
Module ZstdErrors.
Definition prefix_unknown : Z := 10.
Definition memory_allocation : Z := 64.
Definition dstSize_tooSmall : Z := 70.
Definition srcSize_wrong : Z := 72.
Definition maxCode : Z := 120.

Definition ERROR (code : Z) : N := ull_sub 0 code.

Definition isError (code : N) : N :=
  if ERROR maxCode <? code then 1 else 0.

Definition getErrorName (code : N) : string :=
  if code =? ERROR prefix_unknown then "Unknown frame descriptor"
  else if code =? ERROR memory_allocation then "Allocation error : not enough memory"
  else if code =? ERROR dstSize_tooSmall then "Destination buffer is too small"
  else if code =? ERROR srcSize_wrong then "Src size is incorrect"
  else if to_bool (isError code) then "Unspecified error code"
  else "No error detected".
End ZstdErrors.

(** An engine that stores instead of compressing.  A frame is one tag byte
    and the payload; tag [x01] says that the payload's size is declared,
    tag [x00] that it is not.  A context counts the calls made on it. *)
Module StoreEngine.
Import ZstdErrors.

Definition compressBound (srcSize : N) : N := srcSize + 1.

Definition compressCCtx (ctx : N) (dstCapacity : N) (src : buffer) (level : Z)
    : N * buffer * N :=
  if dstCapacity <? size_of src + 1
  then (ERROR dstSize_tooSmall, [], ctx + 1)
  else (size_of src + 1, x01 :: src, ctx + 1).

Definition known_tag (b : byte) : bool := Byte.eqb b x00 || Byte.eqb b x01.

Definition decompressDCtx (ctx : N) (dstCapacity : N) (src : buffer)
    : N * buffer * N :=
  match src with
  | [] => (ERROR srcSize_wrong, [], ctx + 1)
  | tag :: payload =>
      if negb (known_tag tag) then (ERROR prefix_unknown, [], ctx + 1)
      else if dstCapacity <? size_of payload
      then (ERROR dstSize_tooSmall, [], ctx + 1)
      else (size_of payload, payload, ctx + 1)
  end.

Definition getFrameContentSize (src : buffer) : N :=
  match src with
  | [] => ZSTD_CONTENTSIZE_ERROR
  | tag :: payload =>
      if Byte.eqb tag x01 then size_of payload
      else if Byte.eqb tag x00 then ZSTD_CONTENTSIZE_UNKNOWN
      else ZSTD_CONTENTSIZE_ERROR
  end.

(** The dictionary is the start of the corpus; no samples, no dictionary. *)
Definition trainFromBuffer (dictBufferCapacity : N) (samples : buffer)
    (sizes : list N) (nbSamples : N) : N * buffer :=
  if nbSamples =? 0 then (ERROR srcSize_wrong, [])
  else (N.min dictBufferCapacity (size_of samples),
        take (N.to_nat dictBufferCapacity) samples).

Definition engine : Engine := {|
  ZSTD_CCtx := N;
  ZSTD_DCtx := N;
  ZSTD_createCCtx := Some 0;
  ZSTD_createDCtx := Some 0;
  ZSTD_compressBound := compressBound;
  ZSTD_isError := isError;
  ZSTD_getErrorName := getErrorName;
  ZSTD_maxCLevel := 22;
  ZSTD_compressCCtx := compressCCtx;
  ZSTD_decompressDCtx := decompressDCtx;
  ZSTD_getFrameContentSize := getFrameContentSize;
  ZDICT_trainFromBuffer := trainFromBuffer;
  ZDICT_isError := isError;
  ZDICT_getErrorName := getErrorName
|}.

(** A thread of a program linked with this engine. *)
Definition thread (cctx dctx : option N) (calls : list event)
    : @Thread engine :=
  @Build_Thread engine cctx dctx calls.
End StoreEngine.

(** The same engine out of memory: every compression fails. *)
Module StarvedEngine.
Import ZstdErrors.

Definition compressCCtx (ctx : N) (dstCapacity : N) (src : buffer) (level : Z)
    : N * buffer * N :=
  (ERROR memory_allocation, [], ctx).

Definition engine : Engine := {|
  ZSTD_CCtx := N;
  ZSTD_DCtx := N;
  ZSTD_createCCtx := Some 0;
  ZSTD_createDCtx := Some 0;
  ZSTD_compressBound := StoreEngine.compressBound;
  ZSTD_isError := isError;
  ZSTD_getErrorName := getErrorName;
  ZSTD_maxCLevel := 22;
  ZSTD_compressCCtx := compressCCtx;
  ZSTD_decompressDCtx := StoreEngine.decompressDCtx;
  ZSTD_getFrameContentSize := StoreEngine.getFrameContentSize;
  ZDICT_trainFromBuffer := StoreEngine.trainFromBuffer;
  ZDICT_isError := isError;
  ZDICT_getErrorName := getErrorName
|}.

Definition thread (cctx dctx : option N) (calls : list event)
    : @Thread engine :=
  @Build_Thread engine cctx dctx calls.
End StarvedEngine.

(** ** class CDict, class DDict *)

(** The two classes differ in the engine calls they name and in the level
    that [CDict] takes; their special member functions are the same, so one
    embedding serves both, with the class as a tag. *)
Module Dict.

(** A non-null [ZSTD_CDict*] or [ZSTD_DDict*]. *)
Definition handle := positive.
(** [None] is [nullptr]. *)
Definition pointer := option handle.

(** Engine side: the dictionaries it made, newest first, every non-null
    pointer it was asked to free, newest first, and how many more
    dictionaries it has memory for. *)
Record EngineHeap : Type := {
  room : nat;
  made : list handle;
  freed : list handle
}.

Definition empty_heap (room : nat) : EngineHeap :=
  {| room := room; made := []; freed := [] |}.

(** [ZSTD_createCDict], [ZSTD_createDDict]: a new dictionary, or null. *)
Definition create (h : EngineHeap) : pointer * EngineHeap :=
  match room h with
  | O => (None, h)
  | S r =>
      let p := Pos.of_succ_nat (length (made h)) in
      (Some p, {| room := r; made := p :: made h; freed := freed h |})
  end.

Definition ZSTD_createCDict (dict : buffer) (dictSize : N)
    (compressionLevel : Z) (h : EngineHeap) : pointer * EngineHeap :=
  create h.

Definition ZSTD_createDDict (dict : buffer) (dictSize : N)
    (h : EngineHeap) : pointer * EngineHeap :=
  create h.

(** [ZSTD_freeCDict], [ZSTD_freeDDict]: null is accepted and ignored. *)
Definition free (p : pointer) (h : EngineHeap) : EngineHeap :=
  match p with
  | None => h
  | Some a => {| room := room h; made := made h; freed := a :: freed h |}
  end.

Inductive dict_class : Type := CDict | DDict.

Record object : Type := { class_of : dict_class; mDict : pointer }.

Definition same_class (a b : dict_class) : bool :=
  match a, b with CDict, CDict | DDict, DDict => true | _, _ => false end.

Definition guard_null (k : dict_class) (r : pointer * EngineHeap)
    : outcome object * EngineHeap :=
  match fst r with
  | None => (Throw bad_alloc, snd r)
  | Some _ => (Return {| class_of := k; mDict := fst r |}, snd r)
  end.

(** [CDict(TrainData const &data, int compressionLevel)] *)
Definition CDict_ctor (data : TrainData.t) (compressionLevel : Z)
    (h : EngineHeap) : outcome object * EngineHeap :=
  guard_null CDict
    (ZSTD_createCDict (TrainData.data data) (TrainData.size data)
       compressionLevel h).

(** [DDict(TrainData const &data)] *)
Definition DDict_ctor (data : TrainData.t) (h : EngineHeap)
    : outcome object * EngineHeap :=
  guard_null DDict
    (ZSTD_createDDict (TrainData.data data) (TrainData.size data) h).

(** [CDict(CDict &&) = default], [DDict(DDict &&) = default]: each member
    is initialised from the other object's member; for a pointer member
    that is a copy, and the other object keeps its value. *)
Definition move_ctor (other : object) : object :=
  {| class_of := class_of other; mDict := mDict other |}.

(** [operator=(CDict &&) = default]: memberwise assignment. *)
Definition move_assign (this other : object) : object :=
  {| class_of := class_of this; mDict := mDict other |}.

(** [~CDict() { ZSTD_freeCDict(mDict); }] *)
Definition dtor (this : object) (h : EngineHeap) : EngineHeap :=
  free (mDict this) h.

(** Statements of a block that uses dictionaries:
    [CDict x(data, level);], [DDict x(data);], [auto y(std::move(x));]
    and [y = std::move(x);]. *)
Inductive stmt : Type :=
  | new_CDict (x : string) (data : TrainData.t) (compressionLevel : Z)
  | new_DDict (x : string) (data : TrainData.t)
  | move_construct (y x : string)
  | move_assignment (y x : string).

(** The automatic objects of the block, the one declared last first. *)
Definition frame := list (string * object).

Fixpoint lookup (x : string) (f : frame) : option object :=
  match f with
  | [] => None
  | (y, o) :: f' => if String.eqb x y then Some o else lookup x f'
  end.

Fixpoint update (x : string) (o : object) (f : frame) : frame :=
  match f with
  | [] => []
  | (y, o') :: f' =>
      if String.eqb x y then (y, o) :: f' else (y, o') :: update x o f'
  end.

Definition declared (x : string) (f : frame) : bool :=
  match lookup x f with Some _ => true | None => false end.

(** One statement.  [None]: the block does not compile (a name declared
    twice or not at all, a [CDict] moved into a [DDict]). *)
Definition step (s : stmt) (f : frame) (h : EngineHeap)
    : option (outcome unit * frame * EngineHeap) :=
  match s with
  | new_CDict x data level =>
      if declared x f then None else
      match CDict_ctor data level h with
      | (Return o, h') => Some (Return tt, (x, o) :: f, h')
      | (Throw e, h') => Some (Throw e, f, h')
      end
  | new_DDict x data =>
      if declared x f then None else
      match DDict_ctor data h with
      | (Return o, h') => Some (Return tt, (x, o) :: f, h')
      | (Throw e, h') => Some (Throw e, f, h')
      end
  | move_construct y x =>
      if declared y f then None else
      match lookup x f with
      | Some other => Some (Return tt, (y, move_ctor other) :: f, h)
      | None => None
      end
  | move_assignment y x =>
      match lookup y f, lookup x f with
      | Some this, Some other =>
          if same_class (class_of this) (class_of other)
          then Some (Return tt, update y (move_assign this other) f, h)
          else None
      | _, _ => None
      end
  end.

(** The statements in order, up to the first exception. *)
Fixpoint exec (prog : list stmt) (f : frame) (h : EngineHeap)
    : option (outcome unit * frame * EngineHeap) :=
  match prog with
  | [] => Some (Return tt, f, h)
  | s :: prog' =>
      match step s f h with
      | Some (Return _, f', h') => exec prog' f' h'
      | r => r
      end
  end.

(** Leaving the block, normally or by an exception: the destructors run,
    in reverse order of declaration. *)
Fixpoint leave (f : frame) (h : EngineHeap) : EngineHeap :=
  match f with
  | [] => h
  | (_, o) :: f' => leave f' (dtor o h)
  end.

Definition run_block (prog : list stmt) (h : EngineHeap)
    : option (outcome unit * EngineHeap) :=
  match exec prog [] h with
  | Some (r, f, h') => Some (r, leave f h')
  | None => None
  end.

Definition times_freed (a : handle) (h : EngineHeap) : nat :=
  count_occ Pos.eq_dec (freed h) a.

(** Every dictionary the engine made was freed once, no more, no less. *)
Definition each_freed_once (h : EngineHeap) : Prop :=
  forall a : handle, In a (made h) -> times_freed a h = 1%nat.

Definition is_move (s : stmt) : bool :=
  match s with
  | move_construct _ _ | move_assignment _ _ => true
  | _ => false
  end.

(** What the objects of the block point to. *)
Definition owned (f : frame) : list pointer :=
  map (fun xo => mDict (snd xo)) f.

(** As long as nothing is moved, the objects of the block own the
    dictionaries the engine made, one each and in the same order, and
    none has been freed. *)
Definition tidy (f : frame) (h : EngineHeap) : Prop :=
  owned f = map Some (made h) /\
  freed h = [] /\
  NoDup (made h) /\
  Forall (fun a => (Pos.to_nat a <= length (made h))%nat) (made h).

End Dict.

(** ** The dictionary entry points *)

(** The rest of the engine that the header calls: the prepared
    dictionaries and the two calls that use them.  A dictionary here is
    what the engine prepared; who owns the pointer to it, and when it is
    freed, is the matter of [Dict] above. *)
Class DictEngine {E : Engine} : Type := {
  ZSTD_CDict : Type;
  ZSTD_DDict : Type;
  ZSTD_createCDict : buffer -> N -> Z -> option ZSTD_CDict;
  ZSTD_createDDict : buffer -> N -> option ZSTD_DDict;
  ZSTD_compress_usingCDict :
    ZSTD_CCtx -> N -> buffer -> ZSTD_CDict -> N * buffer * ZSTD_CCtx;
  ZSTD_decompress_usingDDict :
    ZSTD_DCtx -> N -> buffer -> ZSTD_DDict -> N * buffer * ZSTD_DCtx
}.

(** [class CDict], as the compressor sees it.  The constructor lets no
    null pointer through, so [mDict] is a dictionary. *)
Module CDict.
Section CDict.
Context {E : Engine} {DE : DictEngine}.

Record t : Type := { mDict : ZSTD_CDict }.

(** [CDict(TrainData const &data, int compressionLevel)] *)
Definition ctor (data : TrainData.t) (compressionLevel : Z) : outcome t :=
  match ZSTD_createCDict (TrainData.data data) (TrainData.size data)
          compressionLevel with
  | Some d => Return {| mDict := d |}
  | None => Throw bad_alloc
  end.

(** [static int maxCompressionLevel()] *)
Definition maxCompressionLevel : Z := ZSTD_maxCLevel.

(** [ZSTD_CDict const* get() const] *)
Definition get (this : t) : ZSTD_CDict := mDict this.

End CDict.
End CDict.

(** [class DDict], as the decompressor sees it. *)
Module DDict.
Section DDict.
Context {E : Engine} {DE : DictEngine}.

Record t : Type := { mDict : ZSTD_DDict }.

(** [DDict(TrainData const &data)] *)
Definition ctor (data : TrainData.t) : outcome t :=
  match ZSTD_createDDict (TrainData.data data) (TrainData.size data) with
  | Some d => Return {| mDict := d |}
  | None => Throw bad_alloc
  end.

(** [ZSTD_DDict const* get() const] *)
Definition get (this : t) : ZSTD_DDict := mDict this.

End DDict.
End DDict.

(** The two [Compress::compress] overloads that take a [CDict].  The trace
    has no event for the engine calls with a dictionary; the resizes and
    the creation of the context are recorded as before. *)
Module DictCompress.
Section DictCompress.
Context {E : Engine} {DE : DictEngine}.

(** [ZSTD_compress_usingCDict(ctx, dst, dstCapacity, src, srcSize, cdict)] *)
Definition call_compress_usingCDict (ctx : ZSTD_CCtx) (dstCapacity : N)
    (src : buffer) (cdict : ZSTD_CDict) : M buffer N :=
  dst <- get_obj ;;
  match ZSTD_compress_usingCDict ctx dstCapacity src cdict with
  | (res, out, ctx') =>
      put_obj (write_bytes dst out) ;;;
      set_compress_instr ctx' ;;;
      ret res
  end.

(** [static void compress(CDict const &dict, std::vector<char> &dst,
    const void* src, size_t srcSize)] *)
Definition compress (dict : CDict.t) (src : buffer) : M buffer unit :=
  Compress.dst_resize (Compress.compressbound (size_of src)) ;;;
  ctx <- Compress.instance ;;
  dst <- get_obj ;;
  res <- call_compress_usingCDict ctx (size_of dst) src (CDict.get dict) ;;
  if to_bool (ZSTD_isError res)
  then throw (ZError ("compress error: " +:+ ZSTD_getErrorName res))
  else Compress.dst_resize res.

(** [static std::size_t compress(CDict const &dict, void* dst,
    size_t dstCapacity, const void* src, size_t srcSize)] *)
Definition compress_into (dict : CDict.t) (dstCapacity : N) (src : buffer)
    : M buffer N :=
  ctx <- Compress.instance ;;
  res <- call_compress_usingCDict ctx dstCapacity src (CDict.get dict) ;;
  if to_bool (ZSTD_isError res)
  then throw (ZError ("compress error: " +:+ ZSTD_getErrorName res))
  else ret res.

End DictCompress.
End DictCompress.

(** The [Decompress::decompress] overload that takes a [DDict]. *)
Module DictDecompress.
Section DictDecompress.
Context {E : Engine} {DE : DictEngine}.

(** [ZSTD_decompress_usingDDict(ctx, dst, dstCapacity, src, srcSize, ddict)] *)
Definition call_decompress_usingDDict (ctx : ZSTD_DCtx) (dstCapacity : N)
    (src : buffer) (ddict : ZSTD_DDict) : M buffer N :=
  dst <- get_obj ;;
  match ZSTD_decompress_usingDDict ctx dstCapacity src ddict with
  | (res, out, ctx') =>
      put_obj (write_bytes dst out) ;;;
      set_decompress_instr ctx' ;;;
      ret res
  end.

(** [static std::size_t decompress(DDict const &dict, void* dst,
    size_t dstCapacity, const void* src, size_t srcSize)] *)
Definition decompress (dict : DDict.t) (dstCapacity : N) (src : buffer)
    : M buffer N :=
  ctx <- Decompress.instance ;;
  res <- call_decompress_usingDDict ctx dstCapacity src (DDict.get dict) ;;
  if to_bool (ZSTD_isError res)
  then throw (ZError ("compress error: " +:+ ZSTD_getErrorName res))
  else ret res.

End DictDecompress.
End DictDecompress.

(** ** A thread's calls, and its end *)

Section Sessions.
Context {E : Engine} {DE : DictEngine}.

(** One call of a static member function of [Compress] or [Decompress],
    with the destination the caller passes. *)
Inductive api_call : Type :=
  | call_compress (dst src : buffer) (compressionLevel : Z)
  | call_compress_into (mem : buffer) (dstCapacity : N) (src : buffer)
      (compressionLevel : Z)
  | call_compress_dict (dict : CDict.t) (dst src : buffer)
  | call_compress_dict_into (dict : CDict.t) (mem : buffer) (dstCapacity : N)
      (src : buffer)
  | call_decompress (mem : buffer) (dstCapacity : N) (src : buffer)
  | call_decompress_dict (dict : DDict.t) (mem : buffer) (dstCapacity : N)
      (src : buffer).

Definition on_Compress (c : api_call) : bool :=
  match c with
  | call_compress _ _ _ | call_compress_into _ _ _ _
  | call_compress_dict _ _ _ | call_compress_dict_into _ _ _ _ => true
  | call_decompress _ _ _ | call_decompress_dict _ _ _ _ => false
  end.

(** The call's outcome, whatever it returns being dropped. *)
Definition outcome_of {A} (r : outcome A) : outcome unit :=
  match r with
  | Return _ => Return tt
  | Throw e => Throw e
  end.

Definition run_call (c : api_call) (t : Thread) : outcome unit * Thread :=
  match c with
  | call_compress dst src L =>
      let r := Compress.compress src L (dst, t) in
      (outcome_of (fst r), snd (snd r))
  | call_compress_into mem cap src L =>
      let r := Compress.compress_into cap src L (mem, t) in
      (outcome_of (fst r), snd (snd r))
  | call_compress_dict dict dst src =>
      let r := DictCompress.compress dict src (dst, t) in
      (outcome_of (fst r), snd (snd r))
  | call_compress_dict_into dict mem cap src =>
      let r := DictCompress.compress_into dict cap src (mem, t) in
      (outcome_of (fst r), snd (snd r))
  | call_decompress mem cap src =>
      let r := Decompress.decompress cap src (mem, t) in
      (outcome_of (fst r), snd (snd r))
  | call_decompress_dict dict mem cap src =>
      let r := DictDecompress.decompress dict cap src (mem, t) in
      (outcome_of (fst r), snd (snd r))
  end.

(** The calls one after the other, by a caller that handles what they
    throw. *)
Definition run_calls (cs : list api_call) (t : Thread) : Thread :=
  fold_left (fun t c => snd (run_call c t)) cs t.

Definition is_createCCtx (ev : event) : bool :=
  match ev with ev_createCCtx => true | _ => false end.

Definition is_createDCtx (ev : event) : bool :=
  match ev with ev_createDCtx => true | _ => false end.

(** How often the thread has called [ZSTD_createCCtx], [ZSTD_createDCtx]. *)
Definition CCtx_creations (t : Thread) : nat :=
  length (filter (fun ev => is_createCCtx ev = true) (trace t)).

Definition DCtx_creations (t : Thread) : nat :=
  length (filter (fun ev => is_createDCtx ev = true) (trace t)).

(** Thread exit runs the destructor of each [thread_local] singleton that
    was constructed: [~Compress() { ZSTD_freeCCtx(mContext); }] and
    [~Decompress() { ZSTD_freeDCtx(mContext); }].  The contexts handed to
    the two engine calls: *)
Definition freeCCtx_at_exit (t : Thread) : list ZSTD_CCtx :=
  match compress_instr t with
  | Some mContext => [mContext]
  | None => []
  end.

Definition freeDCtx_at_exit (t : Thread) : list ZSTD_DCtx :=
  match decompress_instr t with
  | Some mContext => [mContext]
  | None => []
  end.

(** *** What zstd.h promises about the calls with a dictionary *)

(** ZSTD_compress_usingCDict returns like ZSTD_compressCCtx. *)
Definition dict_compress_reports_written : Prop :=
  forall ctx cap src cdict res out ctx',
    ZSTD_compress_usingCDict ctx cap src cdict = (res, out, ctx') ->
    ZSTD_isError res = 0 ->
    res = size_of out /\ res <= cap.

Definition dict_compress_within_capacity : Prop :=
  forall ctx cap src cdict res out ctx',
    ZSTD_compress_usingCDict ctx cap src cdict = (res, out, ctx') ->
    ZSTD_isError res = 0 ->
    res <= cap.

Definition dict_compress_fits_bound : Prop :=
  forall ctx cap src cdict res out ctx',
    addressable src ->
    ZSTD_compressBound (size_of src) <= cap ->
    ZSTD_compress_usingCDict ctx cap src cdict = (res, out, ctx') ->
    ZSTD_isError res = 0.

(** "Decompression using a digested Dictionary": with the dictionary the
    frame was compressed with, the frame gives back the source. *)
Definition dict_decompress_inverts_compress : Prop :=
  forall bytes size level cdict ddict ctx cap src res out ctx' dctx dcap,
    ZSTD_createCDict bytes size level = Some cdict ->
    ZSTD_createDDict bytes size = Some ddict ->
    ZSTD_compress_usingCDict ctx cap src cdict = (res, out, ctx') ->
    ZSTD_isError res = 0 ->
    addressable src -> size_of src <= dcap ->
    ZSTD_isError (size_of src) = 0 /\
    exists dctx',
      ZSTD_decompress_usingDDict dctx dcap out ddict
        = (size_of src, src, dctx').

End Sessions.

(** The storing engine with dictionaries.  A prepared dictionary is its
    bytes; a frame made with one carries, as its tag, a byte taken from
    the dictionary, and is refused under a dictionary with another tag. *)
Module StoreDictEngine.
Import ZstdErrors.

Definition dictionary_wrong : Z := 32.

Definition dict_tag (dict : buffer) : byte :=
  match dict with
  | [] => x02
  | b :: _ => if StoreEngine.known_tag b then x02 else b
  end.

Definition createCDict (dict : buffer) (dictSize : N) (level : Z)
    : option buffer :=
  Some (take (N.to_nat dictSize) dict).

Definition createDDict (dict : buffer) (dictSize : N) : option buffer :=
  Some (take (N.to_nat dictSize) dict).

Definition compress_usingCDict (ctx : N) (dstCapacity : N) (src : buffer)
    (cdict : buffer) : N * buffer * N :=
  if dstCapacity <? size_of src + 1
  then (ERROR dstSize_tooSmall, [], ctx + 1)
  else (size_of src + 1, dict_tag cdict :: src, ctx + 1).

Definition decompress_usingDDict (ctx : N) (dstCapacity : N) (src : buffer)
    (ddict : buffer) : N * buffer * N :=
  match src with
  | [] => (ERROR srcSize_wrong, [], ctx + 1)
  | tag :: payload =>
      if negb (Byte.eqb tag (dict_tag ddict))
      then (ERROR dictionary_wrong, [], ctx + 1)
      else if dstCapacity <? size_of payload
      then (ERROR dstSize_tooSmall, [], ctx + 1)
      else (size_of payload, payload, ctx + 1)
  end.

Definition engine : @DictEngine StoreEngine.engine :=
  @Build_DictEngine StoreEngine.engine buffer buffer
    createCDict createDDict compress_usingCDict decompress_usingDDict.

(** A [CDict], a [DDict] of a program linked with this engine. *)
Definition cdict (d : buffer) : @CDict.t StoreEngine.engine engine :=
  @CDict.Build_t StoreEngine.engine engine d.

Definition ddict (d : buffer) : @DDict.t StoreEngine.engine engine :=
  @DDict.Build_t StoreEngine.engine engine d.
End StoreDictEngine.

(** An engine that can make no context at all. *)
Module ExhaustedEngine.
Definition engine : Engine := {|
  ZSTD_CCtx := N;
  ZSTD_DCtx := N;
  ZSTD_createCCtx := None;
  ZSTD_createDCtx := None;
  ZSTD_compressBound := StoreEngine.compressBound;
  ZSTD_isError := ZstdErrors.isError;
  ZSTD_getErrorName := ZstdErrors.getErrorName;
  ZSTD_maxCLevel := 22;
  ZSTD_compressCCtx := StoreEngine.compressCCtx;
  ZSTD_decompressDCtx := StoreEngine.decompressDCtx;
  ZSTD_getFrameContentSize := StoreEngine.getFrameContentSize;
  ZDICT_trainFromBuffer := StoreEngine.trainFromBuffer;
  ZDICT_isError := ZstdErrors.isError;
  ZDICT_getErrorName := ZstdErrors.getErrorName
|}.

Definition thread (cctx dctx : option N) (calls : list event)
    : @Thread engine :=
  @Build_Thread engine cctx dctx calls.

Definition dicts : @DictEngine engine :=
  @Build_DictEngine engine buffer buffer
    StoreDictEngine.createCDict StoreDictEngine.createDDict
    StoreDictEngine.compress_usingCDict StoreDictEngine.decompress_usingDDict.

Definition cdict (d : buffer) : @CDict.t engine dicts :=
  @CDict.Build_t engine dicts d.
End ExhaustedEngine.

(** ** More on the blocks that use dictionaries *)

Module DictBlocks.
Import Dict.

Definition is_move_construct (s : stmt) : bool :=
  match s with move_construct _ _ => true | _ => false end.

(** How many of the statements are move constructions. *)
Definition move_constructions (prog : list stmt) : nat :=
  length (filter (fun s => is_move_construct s = true) prog).

(** While the block runs: nothing has been freed, the engine's
    dictionaries are distinct, every object points to one of them, and
    there are [k] more objects than dictionaries. *)
Definition running (k : nat) (f : frame) (h : EngineHeap) : Prop :=
  freed h = [] /\
  NoDup (made h) /\
  Forall (fun a => (Pos.to_nat a <= length (made h))%nat) (made h) /\
  Forall (fun xo => exists a, mDict (snd xo) = Some a /\ In a (made h)) f /\
  length f = (length (made h) + k)%nat.

(** How many objects of the block point to dictionary [a]. *)
Definition points_to (a : handle) (o : object) : bool :=
  match mDict o with
  | Some b => Pos.eqb a b
  | None => false
  end.

Definition holders (a : handle) (f : list (string * object)) : nat :=
  length (filter (fun xo => points_to a (snd xo) = true) f).

End DictBlocks.

(** * Properties *)

(** ** Buffers *)

Lemma size_of_vector_resize (n : N) (v : buffer) :
  size_of (vector_resize n v) = n.
Proof.
  unfold size_of, vector_resize. rewrite length_resize. apply N2Nat.id.
Qed.

Lemma length_write_bytes (mem out : buffer) :
  length (write_bytes mem out) = length mem.
Proof.
  unfold write_bytes.
  rewrite length_app, length_take, length_drop. lia.
Qed.

Lemma size_of_write_bytes (mem out : buffer) :
  size_of (write_bytes mem out) = size_of mem.
Proof. unfold size_of. now rewrite length_write_bytes. Qed.

(** What was written is what is read back, as far as it fitted. *)
Lemma take_write_bytes (mem out : buffer) :
  (length out <= length mem)%nat ->
  take (length out) (write_bytes mem out) = out.
Proof.
  intros Hfit. unfold write_bytes.
  rewrite (take_ge out (length mem)) by exact Hfit.
  now rewrite take_app_length.
Qed.

Lemma vector_resize_write_bytes (mem out : buffer) :
  size_of out <= size_of mem ->
  vector_resize (size_of out) (write_bytes mem out) = out.
Proof.
  unfold size_of, vector_resize. intros Hfit.
  rewrite Nat2N.id.
  rewrite resize_le by (rewrite length_write_bytes; lia).
  apply take_write_bytes. lia.
Qed.

(** ** Running the calls *)

Ltac unfold_calls :=
  unfold Compress.compress, Compress.compress_into, Compress.dst_resize,
    Compress.call_compressCCtx, Compress.instance, Compress.ctor,
    Decompress.decompress, Decompress.call_decompressDCtx,
    Decompress.instance, Decompress.ctor,
    bind, ret, throw, emit, get_obj, put_obj, get_thread,
    set_compress_instr, set_decompress_instr;
  cbn [fst snd compress_instr decompress_instr trace].

Section Properties.
Context {E : Engine}.

(** Every run of the buffer-managing overload, spelled out. *)
Lemma compress_run (src : buffer) (L : Z) (dst0 : buffer) (t : Thread) :
  let bound := Compress.compressbound (size_of src) in
  let dst1 := vector_resize bound dst0 in
  Compress.compress src L (dst0, t) =
  match cctx_of t with
  | None =>
      (Throw bad_alloc,
       (dst1,
        {| compress_instr := None;
           decompress_instr := decompress_instr t;
           trace := trace t ++ [ev_resize bound; ev_createCCtx] |}))
  | Some ctx =>
      match ZSTD_compressCCtx ctx bound src L with
      | (res, out, ctx') =>
          let called :=
            trace t ++ [ev_resize bound] ++ cctx_events t
              ++ [ev_compressCCtx bound src L] in
          if to_bool (ZSTD_isError res)
          then
            (Throw (ZError ("compress error: " +:+ ZSTD_getErrorName res)),
             (write_bytes dst1 out,
              {| compress_instr := Some ctx';
                 decompress_instr := decompress_instr t;
                 trace := called |}))
          else
            (Return tt,
             (vector_resize res (write_bytes dst1 out),
              {| compress_instr := Some ctx';
                 decompress_instr := decompress_instr t;
                 trace := called ++ [ev_resize res] |}))
      end
  end.
Proof.
  intros bound dst1. unfold cctx_of, cctx_events. unfold_calls.
  fold bound. fold dst1.
  assert (Hsz : size_of dst1 = bound) by apply size_of_vector_resize.
  destruct (compress_instr t) as [ctx|] eqn:Hinst;
    [| destruct ZSTD_createCCtx as [ctx|]];
    cbn [fst snd compress_instr decompress_instr trace];
    rewrite ?Hsz, <- ?app_assoc; try reflexivity;
    destruct (ZSTD_compressCCtx ctx bound src L) as [[res out] ctx'];
    cbn [fst snd compress_instr decompress_instr trace];
    destruct (to_bool (ZSTD_isError res));
    cbn [fst snd compress_instr decompress_instr trace app];
    rewrite <- ?app_assoc; reflexivity.
Qed.

(** Every run of the overload that writes to the caller's memory. *)
Lemma compress_into_run (cap : N) (src : buffer) (L : Z) (mem : buffer)
    (t : Thread) :
  Compress.compress_into cap src L (mem, t) =
  match cctx_of t with
  | None =>
      (Throw bad_alloc,
       (mem,
        {| compress_instr := None;
           decompress_instr := decompress_instr t;
           trace := trace t ++ [ev_createCCtx] |}))
  | Some ctx =>
      match ZSTD_compressCCtx ctx cap src L with
      | (res, out, ctx') =>
          let after :=
            (write_bytes mem out,
             {| compress_instr := Some ctx';
                decompress_instr := decompress_instr t;
                trace := trace t ++ cctx_events t
                           ++ [ev_compressCCtx cap src L] |}) in
          if to_bool (ZSTD_isError res)
          then
            (Throw (ZError ("compress error: " +:+ ZSTD_getErrorName res)),
             after)
          else (Return res, after)
      end
  end.
Proof.
  unfold cctx_of, cctx_events. unfold_calls.
  destruct (compress_instr t) as [ctx|] eqn:Hinst;
    [| destruct ZSTD_createCCtx as [ctx|]];
    cbn [fst snd compress_instr decompress_instr trace];
    rewrite <- ?app_assoc; try (rewrite Hinst; reflexivity);
    destruct (ZSTD_compressCCtx ctx cap src L) as [[res out] ctx'];
    cbn [fst snd compress_instr decompress_instr trace];
    destruct (to_bool (ZSTD_isError res));
    cbn [fst snd compress_instr decompress_instr trace app];
    rewrite <- ?app_assoc; reflexivity.
Qed.

(** Every run of [Decompress::decompress]. *)
Lemma decompress_run (cap : N) (src : buffer) (mem : buffer) (t : Thread) :
  Decompress.decompress cap src (mem, t) =
  match dctx_of t with
  | None =>
      (Throw bad_alloc,
       (mem,
        {| compress_instr := compress_instr t;
           decompress_instr := None;
           trace := trace t ++ [ev_createDCtx] |}))
  | Some ctx =>
      match ZSTD_decompressDCtx ctx cap src with
      | (res, out, ctx') =>
          let after :=
            (write_bytes mem out,
             {| compress_instr := compress_instr t;
                decompress_instr := Some ctx';
                trace := trace t ++ dctx_events t
                           ++ [ev_decompressDCtx cap src] |}) in
          if to_bool (ZSTD_isError res)
          then
            (Throw (ZError ("compress error: " +:+ ZSTD_getErrorName res)),
             after)
          else (Return res, after)
      end
  end.
Proof.
  unfold dctx_of, dctx_events. unfold_calls.
  destruct (decompress_instr t) as [ctx|] eqn:Hinst;
    [| destruct ZSTD_createDCtx as [ctx|]];
    cbn [fst snd compress_instr decompress_instr trace];
    rewrite <- ?app_assoc; try (rewrite Hinst; reflexivity);
    destruct (ZSTD_decompressDCtx ctx cap src) as [[res out] ctx'];
    cbn [fst snd compress_instr decompress_instr trace];
    destruct (to_bool (ZSTD_isError res));
    cbn [fst snd compress_instr decompress_instr trace app];
    rewrite <- ?app_assoc; reflexivity.
Qed.

Lemma to_bool_false (code : N) : to_bool code = false <-> code = 0.
Proof.
  unfold to_bool. rewrite negb_false_iff. apply N.eqb_eq.
Qed.

Lemma cctx_of_ready (t : Thread) :
  compress_ready t -> exists ctx, cctx_of t = Some ctx.
Proof.
  unfold compress_ready, cctx_of.
  intros [[ctx Hctx] | [ctx Hctx]].
  - rewrite Hctx. now exists ctx.
  - destruct (compress_instr t) as [ctx'|]; [now exists ctx' |].
    now exists ctx.
Qed.

Lemma dctx_of_ready (t : Thread) :
  decompress_ready t -> exists ctx, dctx_of t = Some ctx.
Proof.
  unfold decompress_ready, dctx_of.
  intros [[ctx Hctx] | [ctx Hctx]].
  - rewrite Hctx. now exists ctx.
  - destruct (decompress_instr t) as [ctx'|]; [now exists ctx' |].
    now exists ctx.
Qed.

(** What the buffer-managing overload hands back when the engine kept to
    its return-value promise: the bytes the engine wrote, no more. *)
Lemma compress_returns_written (src : buffer) (L : Z) (dst0 : buffer)
    (t : Thread) (frame : buffer) (t1 : Thread) :
  compress_reports_written ->
  Compress.compress src L (dst0, t) = (Return tt, (frame, t1)) ->
  exists ctx res ctx',
    cctx_of t = Some ctx /\
    ZSTD_compressCCtx ctx (Compress.compressbound (size_of src)) src L
      = (res, frame, ctx') /\
    ZSTD_isError res = 0 /\
    res = size_of frame /\
    res <= Compress.compressbound (size_of src) /\
    decompress_instr t1 = decompress_instr t.
Proof.
  intros Hwritten. rewrite compress_run.
  destruct (cctx_of t) as [ctx|]; [| discriminate].
  destruct (ZSTD_compressCCtx ctx _ src L) as [[res out] ctx'] eqn:Hcall.
  destruct (to_bool (ZSTD_isError res)) eqn:Herr; [discriminate |].
  apply to_bool_false in Herr.
  destruct (Hwritten _ _ _ _ _ _ _ Hcall Herr) as [Hres Hcap].
  intros Hrun. injection Hrun as <- <-.
  assert (Hout : vector_resize res
                   (write_bytes
                      (vector_resize (Compress.compressbound (size_of src))
                         dst0) out) = out).
  { rewrite Hres. apply vector_resize_write_bytes.
    rewrite size_of_vector_resize. now rewrite <- Hres. }
  rewrite Hout. exists ctx, res, ctx'.
  repeat split; assumption || reflexivity.
Qed.

(** C1. Round trip: a payload compressed by the buffer-managing overload
    at a valid level and decompressed into memory of sufficient capacity
    comes back byte for byte, with its length as the returned size.  The
    engine is assumed to keep what zstd.h promises, and the thread to
    get its contexts. *)
Theorem compress_decompress_roundtrip (P : buffer) (L : Z)
    (dst0 mem : buffer) (t : Thread) (dstCapacity : N) :
  compress_reports_written ->
  compress_fits_bound ->
  decompress_inverts_compress ->
  valid_level L ->
  addressable P ->
  compress_ready t ->
  decompress_ready t ->
  size_of P <= dstCapacity ->
  dstCapacity <= size_of mem ->
  exists frame t1 mem' t2,
    Compress.compress P L (dst0, t) = (Return tt, (frame, t1)) /\
    Decompress.decompress dstCapacity frame (mem, t1)
      = (Return (size_of P), (mem', t2)) /\
    take (length P) mem' = P.
Proof.
  intros Hwritten Hfits Hinv HL HP Hc Hd Hcap Hmem.
  destruct (cctx_of_ready t Hc) as [ctx Hctx].
  destruct (dctx_of_ready t Hd) as [dctx Hdctx].
  destruct (Compress.compress P L (dst0, t)) as [r [frame t1]] eqn:Hrun.
  assert (Hok : r = Return tt).
  { rewrite compress_run, Hctx in Hrun.
    destruct (ZSTD_compressCCtx ctx _ P L) as [[res out] ctx'] eqn:Hcall.
    assert (Herr : ZSTD_isError res = 0).
    { eapply Hfits; [exact HL | exact HP | | exact Hcall].
      unfold Compress.compressbound. lia. }
    apply to_bool_false in Herr. rewrite Herr in Hrun.
    now injection Hrun as <- _. }
  subst r.
  destruct (compress_returns_written _ _ _ _ _ _ Hwritten Hrun)
    as (ctx0 & res & ctx' & _ & Hcall & Herr & _ & _ & Hdinst).
  destruct (Hinv _ _ _ _ _ _ _ dctx dstCapacity Hcall Herr HP Hcap)
    as [Hsize [dctx' Hdec]].
  exists frame, t1.
  rewrite decompress_run.
  assert (Hdctx1 : dctx_of t1 = Some dctx).
  { unfold dctx_of in *. now rewrite Hdinst. }
  rewrite Hdctx1, Hdec.
  apply to_bool_false in Hsize. rewrite Hsize.
  eexists _, _. split; [reflexivity |]. split; [reflexivity |].
  cbn [fst]. apply take_write_bytes.
  unfold size_of in *. lia.
Qed.

Lemma reports_written_within_capacity :
  compress_reports_written -> compress_within_capacity.
Proof.
  intros Hwritten ctx cap src L res out ctx' Hcall Herr.
  now destruct (Hwritten _ _ _ _ _ _ _ Hcall Herr).
Qed.

(** C2. The buffer the buffer-managing overload returns is no longer than
    [compressbound] of the payload's length, whatever the level, for an
    engine whose returned size stays within the capacity it was given. *)
Theorem compress_within_bound (P : buffer) (L : Z) (dst0 : buffer)
    (t : Thread) (frame : buffer) (t1 : Thread) :
  compress_within_capacity ->
  Compress.compress P L (dst0, t) = (Return tt, (frame, t1)) ->
  size_of frame <= Compress.compressbound (size_of P).
Proof.
  intros Hwithin. rewrite compress_run.
  destruct (cctx_of t) as [ctx|]; [| discriminate].
  destruct (ZSTD_compressCCtx ctx _ P L) as [[res out] ctx'] eqn:Hcall.
  destruct (to_bool (ZSTD_isError res)) eqn:Herr; [discriminate |].
  apply to_bool_false in Herr.
  intros Hrun. injection Hrun as <- _.
  rewrite size_of_vector_resize.
  exact (Hwithin _ _ _ _ _ _ _ Hcall Herr).
Qed.

(** C3. The buffer-managing overload first resizes the destination to
    [compressbound(srcSize)], then (having fetched the thread's context)
    calls [ZSTD_compressCCtx] with that capacity, the source and the
    level, and when the engine reports no error it resizes the
    destination to the size the engine returned, which is then the
    destination's size. *)
Theorem compress_resize_call_shrink (src : buffer) (L : Z) (dst0 : buffer)
    (t : Thread) :
  let bound := Compress.compressbound (size_of src) in
  exists (r : outcome unit) (dst' : buffer) (t' : Thread) (rest : list event),
    Compress.compress src L (dst0, t) = (r, (dst', t')) /\
    trace t' = trace t ++ ev_resize bound :: rest /\
    match cctx_of t with
    | None => r = Throw bad_alloc /\ rest = [ev_createCCtx]
    | Some ctx =>
        exists res out ctx',
          ZSTD_compressCCtx ctx bound src L = (res, out, ctx') /\
          if to_bool (ZSTD_isError res)
          then
            (exists msg, r = Throw (ZError msg)) /\
            rest = cctx_events t ++ [ev_compressCCtx bound src L]
          else
            r = Return tt /\
            rest = cctx_events t
                     ++ [ev_compressCCtx bound src L; ev_resize res] /\
            size_of dst' = res /\
            dst' = vector_resize res
                     (write_bytes (vector_resize bound dst0) out)
    end.
Proof.
  intros bound. rewrite compress_run. fold bound.
  destruct (cctx_of t) as [ctx|].
  - destruct (ZSTD_compressCCtx ctx bound src L) as [[res out] ctx'].
    destruct (to_bool (ZSTD_isError res)) eqn:Herr.
    + eexists _, _, _, _. split; [reflexivity |].
      cbn [trace app]. split; [reflexivity |].
      exists res, out, ctx'. split; [reflexivity |]. rewrite Herr.
      split; [eexists; reflexivity | reflexivity].
    + eexists _, _, _, _. split; [reflexivity |].
      cbn [trace app]. rewrite <- app_assoc. cbn [app].
      rewrite <- app_assoc. split; [reflexivity |].
      exists res, out, ctx'. split; [reflexivity |]. rewrite Herr.
      repeat split. apply size_of_vector_resize.
  - eexists _, _, _, _. split; [reflexivity |].
    cbn [trace]. split; [reflexivity |]. split; reflexivity.
Qed.

Lemma CONTENTSIZE_values :
  ZSTD_CONTENTSIZE_UNKNOWN = 18446744073709551615 /\
  ZSTD_CONTENTSIZE_ERROR = 18446744073709551614.
Proof. split; reflexivity. Qed.

(** C4. [frameContentSize] throws [ZUnknownSize] exactly when the engine
    answers ZSTD_CONTENTSIZE_UNKNOWN (the frame declares no size), it
    throws a plain [ZError] exactly when the engine answers
    ZSTD_CONTENTSIZE_ERROR (the frame header is invalid), and in every
    other case it returns the engine's answer; it throws nothing else. *)
Theorem frameContentSize_cases (src : buffer) :
  let size := ZSTD_getFrameContentSize src in
  ((exists msg, Decompress.frameContentSize src = Throw (ZUnknownSize msg))
     <-> size = ZSTD_CONTENTSIZE_UNKNOWN) /\
  ((exists msg, Decompress.frameContentSize src = Throw (ZError msg))
     <-> size = ZSTD_CONTENTSIZE_ERROR) /\
  (Decompress.frameContentSize src = Return size
     <-> size <> ZSTD_CONTENTSIZE_UNKNOWN /\ size <> ZSTD_CONTENTSIZE_ERROR) /\
  (forall n, Decompress.frameContentSize src = Return n -> n = size) /\
  Decompress.frameContentSize src <> Throw bad_alloc.
Proof.
  intros size. unfold Decompress.frameContentSize. fold size.
  destruct CONTENTSIZE_values as [HU HE].
  destruct (N.eqb_spec size ZSTD_CONTENTSIZE_UNKNOWN) as [Hu|Hu];
    [| destruct (N.eqb_spec size ZSTD_CONTENTSIZE_ERROR) as [He|He]].
  - repeat split; try (intros; discriminate); try tauto.
    + intros _. eexists; reflexivity.
    + intros [msg Hm]. discriminate.
    + intros He. rewrite Hu, HU, HE in He. discriminate.
  - repeat split; try (intros; discriminate); try tauto.
    + intros [msg Hm]. discriminate.
    + intros _. eexists; reflexivity.
  - repeat split; try (intros; discriminate); try tauto.
    + intros [msg Hm]. discriminate.
    + intros [msg Hm]. discriminate.
    + intros n Hn. now injection Hn.
Qed.

(** C8. When the frame that the buffer-managing overload produced for a
    payload declares a content size (the engine does not answer
    ZSTD_CONTENTSIZE_UNKNOWN for it), [frameContentSize] of that frame
    returns the payload's length. *)
Theorem frameContentSize_of_compressed (P : buffer) (L : Z) (dst0 : buffer)
    (t : Thread) (frame : buffer) (t1 : Thread) :
  compress_reports_written ->
  frame_declares_source_size ->
  addressable P ->
  Compress.compress P L (dst0, t) = (Return tt, (frame, t1)) ->
  ZSTD_getFrameContentSize frame <> ZSTD_CONTENTSIZE_UNKNOWN ->
  Decompress.frameContentSize frame = Return (size_of P).
Proof.
  intros Hwritten Hdeclares HP Hrun Hknown.
  destruct (compress_returns_written _ _ _ _ _ _ Hwritten Hrun)
    as (ctx & res & ctx' & _ & Hcall & Herr & _).
  destruct (Hdeclares _ _ _ _ _ _ _ Hcall Herr) as [Hsize | Hunknown];
    [| contradiction].
  unfold Decompress.frameContentSize. rewrite Hsize in *.
  destruct (N.eqb_spec (size_of P) ZSTD_CONTENTSIZE_UNKNOWN) as [Hu|_];
    [contradiction |].
  destruct (N.eqb_spec (size_of P) ZSTD_CONTENTSIZE_ERROR) as [He|_];
    [| reflexivity].
  exfalso. unfold addressable, PTRDIFF_MAX in HP.
  destruct CONTENTSIZE_values as [_ HE]. rewrite He, HE in HP.
  revert HP. now vm_compute.
Qed.

(** C9. When the buffer-managing overload throws a codec error, the
    destination is left as the failed call made it: resized to
    [compressbound(srcSize)] and holding whatever the engine stored,
    with no resize after the engine call to bring the old size back. *)
Theorem compress_failure_leaves_resized (src : buffer) (L : Z)
    (dst0 : buffer) (t : Thread) (e : exn) (dst' : buffer) (t' : Thread) :
  Compress.compress src L (dst0, t) = (Throw e, (dst', t')) ->
  caught_as_ZError e = true ->
  let bound := Compress.compressbound (size_of src) in
  size_of dst' = bound /\
  trace t' = trace t ++ [ev_resize bound] ++ cctx_events t
               ++ [ev_compressCCtx bound src L] /\
  exists ctx res out ctx',
    cctx_of t = Some ctx /\
    ZSTD_compressCCtx ctx bound src L = (res, out, ctx') /\
    ZSTD_isError res <> 0 /\
    e = ZError ("compress error: " +:+ ZSTD_getErrorName res) /\
    dst' = write_bytes (vector_resize bound dst0) out.
Proof.
  intros Hrun Hcodec bound. rewrite compress_run in Hrun. fold bound in Hrun.
  destruct (cctx_of t) as [ctx|].
  - destruct (ZSTD_compressCCtx ctx bound src L) as [[res out] ctx'] eqn:Hcall.
    destruct (to_bool (ZSTD_isError res)) eqn:Herr; [| discriminate].
    injection Hrun as <- <- <-.
    split; [| split].
    + rewrite size_of_write_bytes. apply size_of_vector_resize.
    + reflexivity.
    + exists ctx, res, out, ctx'.
      split; [reflexivity |]. split; [exact Hcall |].
      split; [| split; reflexivity].
      intros H0. apply to_bool_false in H0. congruence.
  - injection Hrun as <- _ _. discriminate.
Qed.

(** C10. On the same thread and source, at the same level, the
    buffer-managing overload and the overload writing to caller memory of
    capacity at least [compressbound(srcSize)] agree: either both return,
    the written length returned by the second being the size of the
    vector left by the first and the leading bytes of the caller's memory
    being that vector, or both throw the same exception.  The engine is
    assumed to write what it reports; when the caller's capacity exceeds
    the bound, so that the two engine calls differ in [dstCapacity], it is
    also assumed to ignore the spare capacity. *)
Theorem compress_overloads_agree (src : buffer) (L : Z) (dst0 mem : buffer)
    (t : Thread) (dstCapacity : N) :
  compress_reports_written ->
  dstCapacity = Compress.compressbound (size_of src)
    \/ spare_capacity_ignored ->
  Compress.compressbound (size_of src) <= dstCapacity ->
  dstCapacity <= size_of mem ->
  match Compress.compress src L (dst0, t),
        Compress.compress_into dstCapacity src L (mem, t) with
  | (Return _, (dst', _)), (Return n, (mem', _)) =>
      n = size_of dst' /\ take (N.to_nat n) mem' = dst'
  | (Throw e, _), (Throw e', _) => e = e'
  | _, _ => False
  end.
Proof.
  intros Hwritten Hspare Hbound Hmem.
  rewrite compress_run, compress_into_run.
  destruct (cctx_of t) as [ctx|]; [| reflexivity].
  assert (Hsame :
    fst (ZSTD_compressCCtx ctx dstCapacity src L) =
    fst (ZSTD_compressCCtx ctx (Compress.compressbound (size_of src)) src L)).
  { destruct Hspare as [-> | Hspare]; [reflexivity |].
    now apply Hspare. }
  destruct (ZSTD_compressCCtx ctx (Compress.compressbound (size_of src)) src L)
    as [[res out] ctx'] eqn:Hcall.
  destruct (ZSTD_compressCCtx ctx dstCapacity src L)
    as [[res2 out2] ctx2] eqn:Hcall2.
  cbn [fst] in Hsame. injection Hsame as -> ->.
  destruct (to_bool (ZSTD_isError res)) eqn:Herr; [reflexivity |].
  apply to_bool_false in Herr.
  destruct (Hwritten _ _ _ _ _ _ _ Hcall Herr) as [Hres Hcap].
  rewrite Hres.
  rewrite vector_resize_write_bytes
    by (rewrite size_of_vector_resize; now rewrite <- Hres).
  split; [reflexivity |].
  unfold size_of at 1. rewrite Nat2N.id.
  apply take_write_bytes. unfold size_of in *. lia.
Qed.

(** ** TrainData *)

Lemma train_run {T} `{SampleType T} (samples : list T) (this : TrainData.t)
    (t : Thread) :
  let sizes := replicate (length samples) (sizeof T) in
  let n := to_unsigned (N.of_nat (length samples)) in
  TrainData.train samples (this, t) =
  match ZDICT_trainFromBuffer (TrainData.size this)
          (TrainData.corpus samples) sizes n with
  | (err, out) =>
      let after :=
        ({| TrainData.mDictBuffer :=
              write_bytes (TrainData.mDictBuffer this) out |},
         {| compress_instr := compress_instr t;
            decompress_instr := decompress_instr t;
            trace := trace t ++
              [ev_trainFromBuffer (TrainData.size this)
                 (TrainData.corpus samples) sizes n] |}) in
      if to_bool (ZDICT_isError err)
      then (Throw (ZError ("train error: {}" +:+ ZDICT_getErrorName err)),
            after)
      else (Return tt, after)
  end.
Proof.
  intros sizes n. unfold TrainData.train.
  unfold bind, ret, throw, emit, get_obj, put_obj.
  cbn [fst snd compress_instr decompress_instr trace].
  fold sizes. fold n.
  destruct (ZDICT_trainFromBuffer _ _ sizes n) as [err out].
  cbn [fst snd compress_instr decompress_instr trace].
  destruct (to_bool (ZDICT_isError err)); reflexivity.
Qed.

(** The samples lie one after the other, each [sizeof] bytes long. *)
Lemma size_of_corpus {T} `{SampleType T} (samples : list T) :
  size_of (TrainData.corpus samples) = N.of_nat (length samples) * sizeof T.
Proof.
  unfold TrainData.corpus, size_of.
  induction samples as [| x samples IH]; [reflexivity |].
  cbn [map concat length]. rewrite length_app, Nat2N.inj_add, IH.
  pose proof (object_bytes_size x) as Hx. unfold size_of in Hx.
  rewrite Hx. lia.
Qed.

Lemma append_empty (s : string) : s +:+ "" = s.
Proof.
  induction s as [| c s IH]; [reflexivity |].
  change (String c (s +:+ "") = String c s). now rewrite IH.
Qed.

Lemma includes_suffix (pre name : string) : includes (pre +:+ name) name.
Proof.
  exists pre, EmptyString. now rewrite append_empty.
Qed.

Lemma to_unsigned_small (n : N) : n < 2 ^ 32 -> to_unsigned n = n.
Proof. intros Hn. unfold to_unsigned. now apply N.mod_small. Qed.

(** The call as it was meant, with [sizes.data()]: it would hand the
    engine a size list with one entry per sample, every entry being
    [sizeof(SampleType)], together with all the samples as one corpus and
    the training buffer at its full size, and would throw a [ZError] whose
    message includes the engine's name for the error exactly when the
    engine reports one.  The number of samples reaches the engine as an
    [unsigned]: it is the number of samples only below 2^32.  None of this
    is a property of the header as written, whose [train] does not
    compile. *)
Theorem train_sizes_corpus_error {T} `{SampleType T} (samples : list T)
    (this : TrainData.t) (t : Thread) :
  exists (sizes : list N) (nbSamples err : N) (out : buffer)
         (r : outcome unit) (this' : TrainData.t) (t' : Thread),
    TrainData.train samples (this, t) = (r, (this', t')) /\
    length sizes = length samples /\
    Forall (fun s => s = sizeof T) sizes /\
    TrainData.corpus samples = concat (map object_bytes samples) /\
    size_of (TrainData.corpus samples) = N.of_nat (length samples) * sizeof T /\
    nbSamples = to_unsigned (N.of_nat (length samples)) /\
    (N.of_nat (length samples) < 2 ^ 32 ->
     nbSamples = N.of_nat (length samples)) /\
    trace t' = trace t ++
      [ev_trainFromBuffer (TrainData.size this) (TrainData.corpus samples)
         sizes nbSamples] /\
    ZDICT_trainFromBuffer (TrainData.size this) (TrainData.corpus samples)
      sizes nbSamples = (err, out) /\
    TrainData.data this' = write_bytes (TrainData.data this) out /\
    ((exists msg, r = Throw (ZError msg) /\
                  includes msg (ZDICT_getErrorName err))
       <-> ZDICT_isError err <> 0) /\
    (r = Return tt <-> ZDICT_isError err = 0) /\
    (forall e, r = Throw e ->
       e = ZError ("train error: {}" +:+ ZDICT_getErrorName err)).
Proof.
  pose proof (train_run samples this t) as Hrun. cbv zeta in Hrun.
  destruct (ZDICT_trainFromBuffer (TrainData.size this)
              (TrainData.corpus samples)
              (replicate (length samples) (sizeof T))
              (to_unsigned (N.of_nat (length samples))))
    as [err out] eqn:Hcall.
  exists (replicate (length samples) (sizeof T)),
         (to_unsigned (N.of_nat (length samples))), err, out.
  assert (Hargs :
    length (replicate (length samples) (sizeof T)) = length samples /\
    Forall (fun s => s = sizeof T) (replicate (length samples) (sizeof T)) /\
    TrainData.corpus samples = concat (map object_bytes samples) /\
    size_of (TrainData.corpus samples)
      = N.of_nat (length samples) * sizeof T /\
    to_unsigned (N.of_nat (length samples))
      = to_unsigned (N.of_nat (length samples)) /\
    (N.of_nat (length samples) < 2 ^ 32 ->
     to_unsigned (N.of_nat (length samples)) = N.of_nat (length samples))).
  { split; [apply length_replicate |].
    split; [apply Forall_replicate; reflexivity |].
    split; [reflexivity |].
    split; [apply size_of_corpus |].
    split; [reflexivity | apply to_unsigned_small]. }
  destruct Hargs as (Hlen & Hall & Hcorpus & Hsize & Hnb & Hsmall).
  destruct (to_bool (ZDICT_isError err)) eqn:Herr.
  - assert (Hne : ZDICT_isError err <> 0).
    { intros H0. apply to_bool_false in H0. congruence. }
    eexists _, _, _. split; [exact Hrun |].
    do 6 (split; [assumption |]).
    split; [reflexivity |]. split; [exact Hcall |]. split; [reflexivity |].
    split; [| split].
    + split; [intros _; exact Hne |].
      intros _. eexists. split; [reflexivity | apply includes_suffix].
    + split; [discriminate | intros H0; contradiction].
    + intros e He. now injection He.
  - assert (H0 : ZDICT_isError err = 0) by now apply to_bool_false.
    eexists _, _, _. split; [exact Hrun |].
    do 6 (split; [assumption |]).
    split; [reflexivity |]. split; [exact Hcall |]. split; [reflexivity |].
    split; [| split].
    + split; [intros (msg & Hm & _); discriminate | intros Hne; contradiction].
    + split; [intros _; exact H0 | reflexivity].
    + intros e He. discriminate.
Qed.

Lemma size_ctor (c : N) : TrainData.size (TrainData.ctor c) = c.
Proof.
  unfold TrainData.size, TrainData.ctor, size_of.
  cbn [TrainData.mDictBuffer]. rewrite length_replicate. apply N2Nat.id.
Qed.

Lemma train_caught_size (c : TrainData.train_call)
    (s : TrainData.t * Thread) :
  TrainData.size (fst (TrainData.train_caught c s)) = TrainData.size (fst s).
Proof.
  destruct c as [T inst samples]. destruct s as [this t].
  unfold TrainData.train_caught. rewrite train_run.
  destruct (ZDICT_trainFromBuffer _ _ _ _) as [err out].
  destruct (to_bool (ZDICT_isError err));
    cbn [fst snd]; unfold TrainData.size;
    cbn [TrainData.mDictBuffer]; apply size_of_write_bytes.
Qed.

Lemma train_all_size (calls : list TrainData.train_call)
    (s : TrainData.t * Thread) :
  TrainData.size (fst (TrainData.train_all calls s)) = TrainData.size (fst s).
Proof.
  unfold TrainData.train_all. revert s.
  induction calls as [| c calls IH]; intros s; [reflexivity |].
  cbn [fold_left]. rewrite IH. apply train_caught_size.
Qed.

(** C7. A [TrainData] constructed with capacity [c] has [size() = c], and
    still has after any sequence of [train] calls, whether they return or
    throw; the default capacity is 100 MiB. *)
Theorem size_fixed_at_construction (c : N)
    (calls : list TrainData.train_call) (t : Thread) :
  TrainData.size (TrainData.ctor c) = c /\
  TrainData.size (fst (TrainData.train_all calls (TrainData.ctor c, t))) = c /\
  TrainData.size TrainData.ctor_default = 100 * 1024 * 1024 /\
  TrainData.size
    (fst (TrainData.train_all calls (TrainData.ctor_default, t)))
    = 100 * 1024 * 1024.
Proof.
  split; [apply size_ctor |].
  split; [rewrite train_all_size; apply size_ctor |].
  split.
  - unfold TrainData.ctor_default. rewrite size_ctor. reflexivity.
  - rewrite train_all_size. cbn [fst].
    unfold TrainData.ctor_default. rewrite size_ctor. reflexivity.
Qed.

End Properties.

(** ** Dictionary handles *)

Module DictFacts.
Import Dict.

Lemma tidy_empty (room : nat) : tidy [] (empty_heap room).
Proof.
  repeat split; cbn; constructor.
Qed.

Lemma tidy_guard_null (k : dict_class) (x : string) (f : frame)
    (h : EngineHeap) :
  tidy f h ->
  match guard_null k (create h) with
  | (Return o, h') => tidy ((x, o) :: f) h'
  | (Throw _, h') => tidy f h'
  end.
Proof.
  intros (Hown & Hfreed & Hnodup & Hle).
  unfold guard_null, create. destruct (room h) as [| r]; cbn [fst snd].
  - repeat split; assumption.
  - repeat split; cbn [made freed owned map snd mDict length].
    + f_equal. exact Hown.
    + exact Hfreed.
    + constructor; [| exact Hnodup].
      intros Hin. rewrite Forall_forall in Hle.
      specialize (Hle _ Hin). rewrite SuccNat2Pos.id_succ in Hle. lia.
    + constructor; [rewrite SuccNat2Pos.id_succ; lia |].
      eapply Forall_impl; [exact Hle |]. cbn. intros a Ha. lia.
Qed.

Lemma tidy_step (s : stmt) (f : frame) (h : EngineHeap)
    (r : outcome unit) (f' : frame) (h' : EngineHeap) :
  is_move s = false ->
  tidy f h ->
  step s f h = Some (r, f', h') ->
  tidy f' h'.
Proof.
  intros Hs Htidy.
  destruct s as [x data level | x data | y x | y x]; try discriminate;
    cbn [step]; destruct (declared x f); try discriminate.
  - unfold CDict_ctor, ZSTD_createCDict.
    pose proof (tidy_guard_null CDict x f h Htidy) as Hg.
    destruct (guard_null CDict (create h)) as [[o | e] h1];
      intros Hstep; injection Hstep as <- <- <-; exact Hg.
  - unfold DDict_ctor, ZSTD_createDDict.
    pose proof (tidy_guard_null DDict x f h Htidy) as Hg.
    destruct (guard_null DDict (create h)) as [[o | e] h1];
      intros Hstep; injection Hstep as <- <- <-; exact Hg.
Qed.

Lemma tidy_exec (prog : list stmt) (f : frame) (h : EngineHeap)
    (r : outcome unit) (f' : frame) (h' : EngineHeap) :
  forallb (fun s => negb (is_move s)) prog = true ->
  tidy f h ->
  exec prog f h = Some (r, f', h') ->
  tidy f' h'.
Proof.
  revert f h. induction prog as [| s prog IH]; intros f h Hprog Htidy.
  - cbn [exec]. intros Hexec. now injection Hexec as <- <- <-.
  - cbn [forallb] in Hprog. apply andb_true_iff in Hprog as [Hs Hprog].
    apply negb_true_iff in Hs. cbn [exec].
    destruct (step s f h) as [[[r1 f1] h1] |] eqn:Hstep; [| discriminate].
    pose proof (tidy_step _ _ _ _ _ _ Hs Htidy Hstep) as Htidy1.
    destruct r1 as [[] | e].
    + apply IH; assumption.
    + intros Hexec. now injection Hexec as <- <- <-.
Qed.

(** Leaving the block frees what each object points to, the object
    declared last first. *)
Lemma leave_frees (f : frame) (h : EngineHeap) (l : list handle) :
  owned f = map Some l ->
  made (leave f h) = made h /\
  freed (leave f h) = rev l ++ freed h.
Proof.
  revert h l. induction f as [| [x o] f IH]; intros h l Hown.
  - destruct l; [| discriminate]. split; reflexivity.
  - destruct l as [| a l]; [discriminate |].
    cbn [owned map snd] in Hown. injection Hown as Ho Hown.
    cbn [leave]. destruct (IH (dtor o h) l Hown) as [Hmade Hfreed].
    rewrite Hmade, Hfreed. unfold dtor. rewrite Ho. cbn [free made freed rev].
    split; [reflexivity |]. now rewrite <- app_assoc.
Qed.

(** Where the claim holds: in a block that moves no dictionary, every
    dictionary the engine made is freed exactly once by the time the
    block is left, also when a constructor threw on the way. *)
Lemma unmoved_dicts_freed_once (prog : list stmt) (room : nat)
    (r : outcome unit) (h : EngineHeap) :
  forallb (fun s => negb (is_move s)) prog = true ->
  run_block prog (empty_heap room) = Some (r, h) ->
  each_freed_once h.
Proof.
  intros Hprog. unfold run_block.
  destruct (exec prog [] (empty_heap room)) as [[[r1 f1] h1] |] eqn:Hexec;
    [| discriminate].
  intros Hrun. injection Hrun as <- <-.
  destruct (tidy_exec _ _ _ _ _ _ Hprog (tidy_empty room) Hexec)
    as (Hown & Hfreed & Hnodup & _).
  destruct (leave_frees f1 h1 (made h1) Hown) as [Hmade Hfr].
  intros a Ha. unfold times_freed. rewrite Hfr, Hfreed, app_nil_r.
  rewrite Hmade in Ha. rewrite count_occ_rev.
  apply NoDup_count_occ'; [now apply NoDup_ListNoDup | exact Ha].
Qed.

(** C5, on the code: a dictionary that was move-constructed from is freed
    by both objects.  [CDict a(data, 3); CDict b(std::move(a));] makes one
    engine dictionary and frees it twice; the same holds for [DDict]. *)
Theorem moved_from_dict_freed_twice :
  let data := TrainData.ctor 8 in
  (exists h,
     run_block [new_CDict "a" data 3; move_construct "b" "a"] (empty_heap 1)
       = Some (Return tt, h) /\
     made h = [1%positive] /\ times_freed 1%positive h = 2%nat) /\
  (exists h,
     run_block [new_DDict "a" data; move_construct "b" "a"] (empty_heap 1)
       = Some (Return tt, h) /\
     made h = [1%positive] /\ times_freed 1%positive h = 2%nat).
Proof.
  split; eexists; (split; [reflexivity |]); split; reflexivity.
Qed.

(** Move assignment: [CDict a(data, 3); CDict b(data, 3); b = std::move(a);]
    frees the dictionary of [a] twice and that of [b] never. *)
Lemma move_assigned_dict_never_freed :
  let data := TrainData.ctor 8 in
  exists h,
    run_block
      [new_CDict "a" data 3; new_CDict "b" data 3; move_assignment "b" "a"]
      (empty_heap 2) = Some (Return tt, h) /\
    made h = [2%positive; 1%positive] /\
    times_freed 1%positive h = 2%nat /\
    times_freed 2%positive h = 0%nat.
Proof.
  eexists. split; [reflexivity |]. repeat split.
Qed.

(** So the release-exactly-once property does not hold of every block. *)
Lemma not_every_block_frees_once :
  ~ (forall prog room r h,
       run_block prog (empty_heap room) = Some (r, h) -> each_freed_once h).
Proof.
  intros Hall.
  specialize (Hall [new_CDict "a" (TrainData.ctor 8) 3; move_construct "b" "a"]
                1%nat _ _ eq_refl 1%positive (or_introl eq_refl)).
  discriminate Hall.
Qed.

End DictFacts.

(** ** The storing engine keeps the promises *)

Module StoreFacts.
Import ZstdErrors StoreEngine.

Lemma ERROR_maxCode : ERROR maxCode = 18446744073709551496.
Proof. reflexivity. Qed.

Lemma isError_addressable (n : N) : n <= PTRDIFF_MAX + 1 -> isError n = 0.
Proof.
  unfold isError, PTRDIFF_MAX. rewrite ERROR_maxCode. intros Hn.
  destruct (N.ltb_spec 18446744073709551496 n) as [Hlt|_]; [| reflexivity].
  exfalso.
  assert (Hmax : 2 ^ 63 - 1 + 1 = 9223372036854775808) by reflexivity.
  rewrite Hmax in Hn. lia.
Qed.

(** A call of the storing compressor that reported no error stored the
    tagged payload. *)
Lemma compressCCtx_ok (ctx cap : N) (src : buffer) (L : Z)
    (res : N) (out : buffer) (ctx' : N) :
  compressCCtx ctx cap src L = (res, out, ctx') ->
  isError res = 0 ->
  size_of src + 1 <= cap /\ res = size_of src + 1 /\ out = x01 :: src.
Proof.
  unfold compressCCtx.
  destruct (N.ltb_spec cap (size_of src + 1)) as [Hlt|Hge];
    intros Hcall; injection Hcall as <- <- <-.
  - intros Herr. discriminate Herr.
  - intros _. repeat split. exact Hge.
Qed.

Lemma size_of_cons (b : byte) (l : buffer) : size_of (b :: l) = size_of l + 1.
Proof. unfold size_of. cbn [length]. lia. Qed.

Lemma reports_written : @compress_reports_written engine.
Proof.
  intros ctx cap src L res out ctx' Hcall Herr.
  destruct (compressCCtx_ok _ _ _ _ _ _ _ Hcall Herr) as (Hcap & -> & ->).
  split; [now rewrite size_of_cons | exact Hcap].
Qed.

Lemma fits_bound : @compress_fits_bound engine.
Proof.
  intros ctx cap src L res out ctx' _ Hsrc Hcap Hcall.
  cbn [ZSTD_compressBound ZSTD_compressCCtx ZSTD_isError engine] in *.
  unfold compressBound in Hcap. unfold compressCCtx in Hcall.
  destruct (N.ltb_spec cap (size_of src + 1)) as [Hlt|_]; [lia |].
  injection Hcall as <- _ _.
  apply isError_addressable. unfold addressable in Hsrc. lia.
Qed.

Lemma inverts : @decompress_inverts_compress engine.
Proof.
  intros ctx cap src L res out ctx' dctx dcap Hcall Herr Hsrc Hdcap.
  destruct (compressCCtx_ok _ _ _ _ _ _ _ Hcall Herr) as (_ & _ & ->).
  split.
  - apply isError_addressable. unfold addressable in Hsrc. lia.
  - exists (dctx + 1).
    cbn [ZSTD_decompressDCtx engine decompressDCtx known_tag Byte.eqb
           orb negb].
    change (negb (known_tag x01)) with false. cbv iota.
    destruct (N.ltb_spec dcap (size_of src)) as [Hlt|_]; [lia | reflexivity].
Qed.

Lemma declares : @frame_declares_source_size engine.
Proof.
  intros ctx cap src L res out ctx' Hcall Herr.
  destruct (compressCCtx_ok _ _ _ _ _ _ _ Hcall Herr) as (_ & _ & ->).
  left. reflexivity.
Qed.

Lemma ignores_spare : @spare_capacity_ignored engine.
Proof.
  intros ctx cap src L Hcap.
  cbn [ZSTD_compressBound ZSTD_compressCCtx engine] in *.
  unfold compressBound in *. unfold compressCCtx.
  destruct (N.ltb_spec cap (size_of src + 1)) as [Hlt|_]; [lia |].
  destruct (N.ltb_spec (size_of src + 1) (size_of src + 1)) as [Hlt|_];
    [lia | reflexivity].
Qed.

End StoreFacts.

(** ** The theorems at work on the two engines *)

Lemma compress_decompress_roundtrip_witness :
  exists frame t1 mem' t2,
    Compress.compress (E := StoreEngine.engine) [x68; x69] 3 ([], fresh_thread)
      = (Return tt, (frame, t1)) /\
    Decompress.decompress 4 frame (replicate 4 x00, t1)
      = (Return (size_of [x68; x69]), (mem', t2)) /\
    take (length [x68; x69]) mem' = [x68; x69].
Proof.
  apply (compress_decompress_roundtrip (E := StoreEngine.engine)
           [x68; x69] 3 [] (replicate 4 x00) fresh_thread 4).
  - exact StoreFacts.reports_written.
  - exact StoreFacts.fits_bound.
  - exact StoreFacts.inverts.
  - unfold valid_level. cbn. lia.
  - unfold addressable. vm_compute. discriminate.
  - right. exists 0. reflexivity.
  - right. exists 0. reflexivity.
  - vm_compute. discriminate.
  - vm_compute. discriminate.
Defined.

Lemma compress_within_bound_witness :
  size_of [x01; x68; x69] <=
  Compress.compressbound (E := StoreEngine.engine) (size_of [x68; x69]).
Proof.
  apply (compress_within_bound (E := StoreEngine.engine)
           [x68; x69] 3 [x2a] fresh_thread [x01; x68; x69]
           (StoreEngine.thread (Some 1) None
              [ev_resize 3; ev_createCCtx;
               ev_compressCCtx 3 [x68; x69] 3; ev_resize 3])).
  - exact (reports_written_within_capacity StoreFacts.reports_written).
  - reflexivity.
Defined.

Lemma frameContentSize_of_compressed_witness :
  Decompress.frameContentSize (E := StoreEngine.engine) [x01; x68; x69]
  = Return (size_of [x68; x69]).
Proof.
  apply (frameContentSize_of_compressed (E := StoreEngine.engine)
           [x68; x69] 3 [x2a] fresh_thread [x01; x68; x69]
           (StoreEngine.thread (Some 1) None
              [ev_resize 3; ev_createCCtx;
               ev_compressCCtx 3 [x68; x69] 3; ev_resize 3])).
  - exact StoreFacts.reports_written.
  - exact StoreFacts.declares.
  - unfold addressable. vm_compute. discriminate.
  - reflexivity.
  - vm_compute. discriminate.
Defined.

Lemma compress_failure_leaves_resized_witness :
  size_of [x2a; x00; x00]
  = Compress.compressbound (E := StarvedEngine.engine) (size_of [x68; x69]).
Proof.
  apply (compress_failure_leaves_resized (E := StarvedEngine.engine)
           [x68; x69] 3 [x2a] fresh_thread
           (ZError "compress error: Allocation error : not enough memory")
           [x2a; x00; x00]
           (StarvedEngine.thread (Some 0) None
              [ev_resize 3; ev_createCCtx; ev_compressCCtx 3 [x68; x69] 3])).
  - reflexivity.
  - reflexivity.
Defined.

Lemma compress_overloads_agree_witness :
  match Compress.compress (E := StoreEngine.engine) [x68; x69] 3
          ([x2a], fresh_thread),
        Compress.compress_into (E := StoreEngine.engine) 5 [x68; x69] 3
          (replicate 6 xff, fresh_thread)
  with
  | (Return _, (dst', _)), (Return n, (mem', _)) =>
      n = size_of dst' /\ take (N.to_nat n) mem' = dst'
  | (Throw e, _), (Throw e', _) => e = e'
  | _, _ => False
  end.
Proof.
  apply (compress_overloads_agree (E := StoreEngine.engine)
           [x68; x69] 3 [x2a] (replicate 6 xff) fresh_thread 5).
  - exact StoreFacts.reports_written.
  - right. exact StoreFacts.ignores_spare.
  - vm_compute. discriminate.
  - vm_compute. discriminate.
Defined.

(** ** Small runs on the storing engine *)

Example compress_hi :
  Compress.compress (E := StoreEngine.engine) [x68; x69] 3 ([x2a], fresh_thread)
  = (Return tt,
     ([x01; x68; x69],
      StoreEngine.thread (Some 1) None
        [ev_resize 3; ev_createCCtx; ev_compressCCtx 3 [x68; x69] 3;
         ev_resize 3])).
Proof. reflexivity. Qed.

Example compress_into_too_small :
  Compress.compress_into (E := StoreEngine.engine) 2 [x68; x69] 3
    ([xff; xff], fresh_thread)
  = (Throw (ZError "compress error: Destination buffer is too small"),
     ([xff; xff],
      StoreEngine.thread (Some 1) None
        [ev_createCCtx; ev_compressCCtx 2 [x68; x69] 3])).
Proof. reflexivity. Qed.

Example decompress_hi :
  Decompress.decompress (E := StoreEngine.engine) 4 [x01; x68; x69]
    ([xff; xff; xff; xff], fresh_thread)
  = (Return 2,
     ([x68; x69; xff; xff],
      StoreEngine.thread None (Some 1)
        [ev_createDCtx; ev_decompressDCtx 4 [x01; x68; x69]])).
Proof. reflexivity. Qed.

Example decompress_garbage :
  fst (Decompress.decompress (E := StoreEngine.engine) 4 [x7f; x68]
         ([xff; xff; xff; xff], fresh_thread))
  = Throw (ZError "compress error: Unknown frame descriptor").
Proof. reflexivity. Qed.

Example frameContentSize_declared :
  Decompress.frameContentSize (E := StoreEngine.engine) [x01; x68; x69]
  = Return 2.
Proof. reflexivity. Qed.

Example frameContentSize_undeclared :
  Decompress.frameContentSize (E := StoreEngine.engine) [x00; x68; x69]
  = Throw (ZUnknownSize "unknown size").
Proof. reflexivity. Qed.

Example frameContentSize_invalid :
  Decompress.frameContentSize (E := StoreEngine.engine) [x7f; x68; x69]
  = Throw (ZError "cannot determine size").
Proof. reflexivity. Qed.

Example train_three_chars :
  TrainData.train (E := StoreEngine.engine) [x61; x62; x63]
    (TrainData.ctor 2, fresh_thread)
  = (Return tt,
     ({| TrainData.mDictBuffer := [x61; x62] |},
      StoreEngine.thread None None
        [ev_trainFromBuffer 2 [x61; x62; x63] [1; 1; 1] 3])).
Proof. reflexivity. Qed.

Example train_no_samples :
  TrainData.train (E := StoreEngine.engine) (T := byte) []
    (TrainData.ctor 2, fresh_thread)
  = (Throw (ZError "train error: {}Src size is incorrect"),
     ({| TrainData.mDictBuffer := [x00; x00] |},
      StoreEngine.thread None None [ev_trainFromBuffer 2 [] [] 0])).
Proof. reflexivity. Qed.

(** * More of the header *)

(** ** Running the calls that take a dictionary *)

Ltac unfold_dict_calls :=
  unfold DictCompress.compress, DictCompress.compress_into,
    DictCompress.call_compress_usingCDict,
    DictDecompress.decompress, DictDecompress.call_decompress_usingDDict,
    Compress.dst_resize, Compress.instance, Compress.ctor,
    Decompress.instance, Decompress.ctor,
    bind, ret, throw, emit, get_obj, put_obj, get_thread,
    set_compress_instr, set_decompress_instr;
  cbn [fst snd compress_instr decompress_instr trace].

Section DictRuns.
Context {E : Engine} {DE : DictEngine}.

Lemma dict_compress_run (dict : CDict.t) (src : buffer) (dst0 : buffer)
    (t : Thread) :
  let bound := Compress.compressbound (size_of src) in
  let dst1 := vector_resize bound dst0 in
  DictCompress.compress dict src (dst0, t) =
  match cctx_of t with
  | None =>
      (Throw bad_alloc,
       (dst1,
        {| compress_instr := None;
           decompress_instr := decompress_instr t;
           trace := trace t ++ [ev_resize bound; ev_createCCtx] |}))
  | Some ctx =>
      match ZSTD_compress_usingCDict ctx bound src (CDict.get dict) with
      | (res, out, ctx') =>
          let called := trace t ++ [ev_resize bound] ++ cctx_events t in
          if to_bool (ZSTD_isError res)
          then
            (Throw (ZError ("compress error: " +:+ ZSTD_getErrorName res)),
             (write_bytes dst1 out,
              {| compress_instr := Some ctx';
                 decompress_instr := decompress_instr t;
                 trace := called |}))
          else
            (Return tt,
             (vector_resize res (write_bytes dst1 out),
              {| compress_instr := Some ctx';
                 decompress_instr := decompress_instr t;
                 trace := called ++ [ev_resize res] |}))
      end
  end.
Proof.
  intros bound dst1. unfold cctx_of, cctx_events. unfold_dict_calls.
  fold bound. fold dst1.
  assert (Hsz : size_of dst1 = bound) by apply size_of_vector_resize.
  destruct (compress_instr t) as [ctx|] eqn:Hinst;
    [| destruct ZSTD_createCCtx as [ctx|]];
    cbn [fst snd compress_instr decompress_instr trace];
    rewrite ?Hsz, <- ?app_assoc; try reflexivity;
    destruct (ZSTD_compress_usingCDict ctx bound src (CDict.get dict))
      as [[res out] ctx'];
    cbn [fst snd compress_instr decompress_instr trace];
    destruct (to_bool (ZSTD_isError res));
    cbn [fst snd compress_instr decompress_instr trace app];
    rewrite <- ?app_assoc, ?app_nil_r; reflexivity.
Qed.

Lemma dict_compress_into_run (dict : CDict.t) (cap : N) (src : buffer)
    (mem : buffer) (t : Thread) :
  DictCompress.compress_into dict cap src (mem, t) =
  match cctx_of t with
  | None =>
      (Throw bad_alloc,
       (mem,
        {| compress_instr := None;
           decompress_instr := decompress_instr t;
           trace := trace t ++ [ev_createCCtx] |}))
  | Some ctx =>
      match ZSTD_compress_usingCDict ctx cap src (CDict.get dict) with
      | (res, out, ctx') =>
          let after :=
            (write_bytes mem out,
             {| compress_instr := Some ctx';
                decompress_instr := decompress_instr t;
                trace := trace t ++ cctx_events t |}) in
          if to_bool (ZSTD_isError res)
          then
            (Throw (ZError ("compress error: " +:+ ZSTD_getErrorName res)),
             after)
          else (Return res, after)
      end
  end.
Proof.
  unfold cctx_of, cctx_events. unfold_dict_calls.
  destruct (compress_instr t) as [ctx|] eqn:Hinst;
    [| destruct ZSTD_createCCtx as [ctx|]];
    cbn [fst snd compress_instr decompress_instr trace];
    rewrite <- ?app_assoc; try (rewrite Hinst; reflexivity);
    destruct (ZSTD_compress_usingCDict ctx cap src (CDict.get dict))
      as [[res out] ctx'];
    cbn [fst snd compress_instr decompress_instr trace];
    destruct (to_bool (ZSTD_isError res));
    cbn [fst snd compress_instr decompress_instr trace app];
    rewrite <- ?app_assoc, ?app_nil_r; reflexivity.
Qed.

Lemma dict_decompress_run (dict : DDict.t) (cap : N) (src : buffer)
    (mem : buffer) (t : Thread) :
  DictDecompress.decompress dict cap src (mem, t) =
  match dctx_of t with
  | None =>
      (Throw bad_alloc,
       (mem,
        {| compress_instr := compress_instr t;
           decompress_instr := None;
           trace := trace t ++ [ev_createDCtx] |}))
  | Some ctx =>
      match ZSTD_decompress_usingDDict ctx cap src (DDict.get dict) with
      | (res, out, ctx') =>
          let after :=
            (write_bytes mem out,
             {| compress_instr := compress_instr t;
                decompress_instr := Some ctx';
                trace := trace t ++ dctx_events t |}) in
          if to_bool (ZSTD_isError res)
          then
            (Throw (ZError ("compress error: " +:+ ZSTD_getErrorName res)),
             after)
          else (Return res, after)
      end
  end.
Proof.
  unfold dctx_of, dctx_events. unfold_dict_calls.
  destruct (decompress_instr t) as [ctx|] eqn:Hinst;
    [| destruct ZSTD_createDCtx as [ctx|]];
    cbn [fst snd compress_instr decompress_instr trace];
    rewrite <- ?app_assoc; try (rewrite Hinst; reflexivity);
    destruct (ZSTD_decompress_usingDDict ctx cap src (DDict.get dict))
      as [[res out] ctx'];
    cbn [fst snd compress_instr decompress_instr trace];
    destruct (to_bool (ZSTD_isError res));
    cbn [fst snd compress_instr decompress_instr trace app];
    rewrite <- ?app_assoc, ?app_nil_r; reflexivity.
Qed.

End DictRuns.

(** ** The two singletons of a thread *)

Section Singletons.
Context {E : Engine} {DE : DictEngine}.

Ltac count_creations :=
  unfold CCtx_creations, DCtx_creations;
  cbn [fst snd trace compress_instr decompress_instr outcome_of];
  rewrite ?filter_app, ?length_app;
  cbn; rewrite ?Nat.add_0_r.

(** What one call on [Compress] does to the thread. *)
Lemma run_call_on_Compress (c : api_call) (t : Thread) :
  on_Compress c = true ->
  CCtx_creations (snd (run_call c t))
    = (CCtx_creations t + length (cctx_events t))%nat /\
  DCtx_creations (snd (run_call c t)) = DCtx_creations t /\
  decompress_instr (snd (run_call c t)) = decompress_instr t /\
  (is_Some (compress_instr (snd (run_call c t))) <-> is_Some (cctx_of t)) /\
  (cctx_of t = None -> fst (run_call c t) = Throw bad_alloc).
Proof.
  intros Hc.
  destruct c as [dst src L | mem cap src L | dict dst src | dict mem cap src
                | mem cap src | dict mem cap src];
    try discriminate Hc; cbn [run_call].
  - rewrite compress_run. unfold cctx_of, cctx_events.
    destruct (compress_instr t) as [ctx|] eqn:Hinst;
      [| destruct ZSTD_createCCtx as [ctx|]];
      try destruct (ZSTD_compressCCtx ctx _ src L) as [[res out] ctx'];
      try destruct (to_bool (ZSTD_isError res));
      count_creations;
      (repeat split; try reflexivity; try discriminate;
       try (intros _; eexists; reflexivity);
       try (intros [? Hnone]; discriminate Hnone)).
  - rewrite compress_into_run. unfold cctx_of, cctx_events.
    destruct (compress_instr t) as [ctx|] eqn:Hinst;
      [| destruct ZSTD_createCCtx as [ctx|]];
      try destruct (ZSTD_compressCCtx ctx _ src L) as [[res out] ctx'];
      try destruct (to_bool (ZSTD_isError res));
      count_creations;
      (repeat split; try reflexivity; try discriminate;
       try (intros _; eexists; reflexivity);
       try (intros [? Hnone]; discriminate Hnone)).
  - rewrite dict_compress_run. unfold cctx_of, cctx_events.
    destruct (compress_instr t) as [ctx|] eqn:Hinst;
      [| destruct ZSTD_createCCtx as [ctx|]];
      try destruct (ZSTD_compress_usingCDict ctx _ src _) as [[res out] ctx'];
      try destruct (to_bool (ZSTD_isError res));
      count_creations;
      (repeat split; try reflexivity; try discriminate;
       try (intros _; eexists; reflexivity);
       try (intros [? Hnone]; discriminate Hnone)).
  - rewrite dict_compress_into_run. unfold cctx_of, cctx_events.
    destruct (compress_instr t) as [ctx|] eqn:Hinst;
      [| destruct ZSTD_createCCtx as [ctx|]];
      try destruct (ZSTD_compress_usingCDict ctx _ src _) as [[res out] ctx'];
      try destruct (to_bool (ZSTD_isError res));
      count_creations;
      (repeat split; try reflexivity; try discriminate;
       try (intros _; eexists; reflexivity);
       try (intros [? Hnone]; discriminate Hnone)).
Qed.

(** What one call on [Decompress] does to the thread. *)
Lemma run_call_on_Decompress (c : api_call) (t : Thread) :
  on_Compress c = false ->
  DCtx_creations (snd (run_call c t))
    = (DCtx_creations t + length (dctx_events t))%nat /\
  CCtx_creations (snd (run_call c t)) = CCtx_creations t /\
  compress_instr (snd (run_call c t)) = compress_instr t /\
  (is_Some (decompress_instr (snd (run_call c t))) <-> is_Some (dctx_of t)) /\
  (dctx_of t = None -> fst (run_call c t) = Throw bad_alloc).
Proof.
  intros Hc.
  destruct c as [dst src L | mem cap src L | dict dst src | dict mem cap src
                | mem cap src | dict mem cap src];
    try discriminate Hc; cbn [run_call].
  - rewrite decompress_run. unfold dctx_of, dctx_events.
    destruct (decompress_instr t) as [ctx|] eqn:Hinst;
      [| destruct ZSTD_createDCtx as [ctx|]];
      try destruct (ZSTD_decompressDCtx ctx _ src) as [[res out] ctx'];
      try destruct (to_bool (ZSTD_isError res));
      count_creations;
      (repeat split; try reflexivity; try discriminate;
       try (intros _; eexists; reflexivity);
       try (intros [? Hnone]; discriminate Hnone)).
  - rewrite dict_decompress_run. unfold dctx_of, dctx_events.
    destruct (decompress_instr t) as [ctx|] eqn:Hinst;
      [| destruct ZSTD_createDCtx as [ctx|]];
      try destruct (ZSTD_decompress_usingDDict ctx _ src _)
        as [[res out] ctx'];
      try destruct (to_bool (ZSTD_isError res));
      count_creations;
      (repeat split; try reflexivity; try discriminate;
       try (intros _; eexists; reflexivity);
       try (intros [? Hnone]; discriminate Hnone)).
Qed.

Lemma run_calls_cons (c : api_call) (cs : list api_call) (t : Thread) :
  run_calls (c :: cs) t = run_calls cs (snd (run_call c t)).
Proof. reflexivity. Qed.

(** X1. However many calls a thread makes, on whichever overloads of
    [Compress] and [Decompress], [ZSTD_createCCtx] is called once, by the
    first call on [Compress], when the engine can make a context; never
    when the thread has one already; and by every call on [Compress] when
    the engine cannot.  At thread exit [ZSTD_freeCCtx] gets exactly the one
    context the thread holds, if it holds one. *)
Theorem compress_context_made_once (cs : list api_call) (t : Thread) :
  let n := length (filter (fun c => on_Compress c = true) cs) in
  let t' := run_calls cs t in
  CCtx_creations t' =
    (CCtx_creations t +
     match compress_instr t, ZSTD_createCCtx with
     | Some _, _ => 0
     | None, Some _ => Nat.min 1 n
     | None, None => n
     end)%nat /\
  length (freeCCtx_at_exit t') =
    match compress_instr t, ZSTD_createCCtx with
    | Some _, _ => 1%nat
    | None, Some _ => Nat.min 1 n
    | None, None => 0%nat
    end.
Proof.
  cbv zeta. revert t. induction cs as [| c cs IH]; intros t.
  - unfold freeCCtx_at_exit. cbn [run_calls fold_left filter length].
    rewrite filter_nil. cbn [length].
    destruct (compress_instr t); [| destruct ZSTD_createCCtx];
      split; reflexivity || lia.
  - rewrite run_calls_cons. specialize (IH (snd (run_call c t))).
    destruct (on_Compress c) eqn:Hc.
    + rewrite filter_cons_True by exact Hc. cbn [length].
      destruct (run_call_on_Compress c t Hc) as (Hmade & _ & _ & Hhas & _).
      rewrite Hmade in IH. unfold cctx_of, cctx_events in *.
      destruct (compress_instr t) as [ctx|].
      * destruct (compress_instr (snd (run_call c t))) as [ctx1|].
        -- cbn [length] in IH. destruct IH as [IH1 IH2]. split; [lia | exact IH2].
        -- exfalso. destruct Hhas as [_ Hhas].
           destruct Hhas as [? Hnone];
             [eexists; reflexivity | discriminate Hnone].
      * destruct ZSTD_createCCtx as [ctx|].
        -- destruct (compress_instr (snd (run_call c t))) as [ctx1|].
           ++ cbn [length] in IH. destruct IH as [IH1 IH2].
              split; [lia | exact IH2].
           ++ exfalso. destruct Hhas as [_ Hhas].
              destruct Hhas as [? Hnone];
                [eexists; reflexivity | discriminate Hnone].
        -- destruct (compress_instr (snd (run_call c t))) as [ctx1|].
           ++ exfalso. destruct Hhas as [Hhas _].
              destruct Hhas as [? Hnone];
                [eexists; reflexivity | discriminate Hnone].
           ++ cbn [length] in IH. destruct IH as [IH1 IH2].
              split; [lia | exact IH2].
    + rewrite filter_cons_False by (rewrite Hc; discriminate).
      destruct (run_call_on_Decompress c t Hc) as (_ & Hmade & Hsame & _).
      rewrite Hmade, Hsame in IH. exact IH.
Qed.

(** X2. The same for the decompression context: [ZSTD_createDCtx] is
    called once, by the first call on [Decompress], when the engine can
    make a context, never when the thread has one, and by every call on
    [Decompress] when it cannot; thread exit frees the one context held. *)
Theorem decompress_context_made_once (cs : list api_call) (t : Thread) :
  let n := length (filter (fun c => on_Compress c = false) cs) in
  let t' := run_calls cs t in
  DCtx_creations t' =
    (DCtx_creations t +
     match decompress_instr t, ZSTD_createDCtx with
     | Some _, _ => 0
     | None, Some _ => Nat.min 1 n
     | None, None => n
     end)%nat /\
  length (freeDCtx_at_exit t') =
    match decompress_instr t, ZSTD_createDCtx with
    | Some _, _ => 1%nat
    | None, Some _ => Nat.min 1 n
    | None, None => 0%nat
    end.
Proof.
  cbv zeta. revert t. induction cs as [| c cs IH]; intros t.
  - unfold freeDCtx_at_exit. cbn [run_calls fold_left filter length].
    rewrite filter_nil. cbn [length].
    destruct (decompress_instr t); [| destruct ZSTD_createDCtx];
      split; reflexivity || lia.
  - rewrite run_calls_cons. specialize (IH (snd (run_call c t))).
    destruct (on_Compress c) eqn:Hc.
    + rewrite filter_cons_False by (rewrite Hc; discriminate).
      destruct (run_call_on_Compress c t Hc) as (_ & Hmade & Hsame & _).
      rewrite Hmade, Hsame in IH. exact IH.
    + rewrite filter_cons_True by exact Hc. cbn [length].
      destruct (run_call_on_Decompress c t Hc) as (Hmade & _ & _ & Hhas & _).
      rewrite Hmade in IH. unfold dctx_of, dctx_events in *.
      destruct (decompress_instr t) as [ctx|].
      * destruct (decompress_instr (snd (run_call c t))) as [ctx1|].
        -- cbn [length] in IH. destruct IH as [IH1 IH2]. split; [lia | exact IH2].
        -- exfalso. destruct Hhas as [_ Hhas].
           destruct Hhas as [? Hnone];
             [eexists; reflexivity | discriminate Hnone].
      * destruct ZSTD_createDCtx as [ctx|].
        -- destruct (decompress_instr (snd (run_call c t))) as [ctx1|].
           ++ cbn [length] in IH. destruct IH as [IH1 IH2].
              split; [lia | exact IH2].
           ++ exfalso. destruct Hhas as [_ Hhas].
              destruct Hhas as [? Hnone];
                [eexists; reflexivity | discriminate Hnone].
        -- destruct (decompress_instr (snd (run_call c t))) as [ctx1|].
           ++ exfalso. destruct Hhas as [Hhas _].
              destruct Hhas as [? Hnone];
                [eexists; reflexivity | discriminate Hnone].
           ++ cbn [length] in IH. destruct IH as [IH1 IH2].
              split; [lia | exact IH2].
Qed.

(** X3. A thread that only calls [Compress] never makes, and at its exit
    never frees, a decompression context; a thread that only calls
    [Decompress] never makes or frees a compression context. *)
Theorem singletons_independent (cs : list api_call) (t : Thread) :
  (forallb on_Compress cs = true ->
   decompress_instr (run_calls cs t) = decompress_instr t /\
   DCtx_creations (run_calls cs t) = DCtx_creations t) /\
  (forallb (fun c => negb (on_Compress c)) cs = true ->
   compress_instr (run_calls cs t) = compress_instr t /\
   CCtx_creations (run_calls cs t) = CCtx_creations t).
Proof.
  split; revert t; induction cs as [| c cs IH]; intros t Hall;
    try (split; reflexivity);
    cbn [forallb] in Hall; apply andb_true_iff in Hall as [Hc Hall];
    rewrite run_calls_cons; destruct (IH (snd (run_call c t)) Hall) as [-> ->].
  - destruct (run_call_on_Compress c t Hc) as (_ & Hmade & Hsame & _).
    now split.
  - apply negb_true_iff in Hc.
    destruct (run_call_on_Decompress c t Hc) as (_ & Hmade & Hsame & _).
    now split.
Qed.

End Singletons.

(** ** What the calls throw, and what they leave behind *)

Section Outcomes.
Context {E : Engine} {DE : DictEngine}.

(** X4. When the thread has no compression context and the engine cannot
    make one, each of the four [Compress::compress] overloads throws
    [std::bad_alloc] and makes no engine call but [ZSTD_createCCtx]; the
    thread is left without a context, so that the next call tries again.
    The overloads taking a vector have resized it to
    [compressbound(srcSize)] by then; the overloads taking caller memory
    leave that memory as it was. *)
Theorem compress_without_context (t : Thread) (src : buffer) (L : Z)
    (dict : CDict.t) (dst0 mem : buffer) (cap : N) :
  cctx_of t = None ->
  let bound := Compress.compressbound (size_of src) in
  let left (calls : list event) :=
    {| compress_instr := None;
       decompress_instr := decompress_instr t;
       trace := trace t ++ calls |} in
  Compress.compress src L (dst0, t)
    = (Throw bad_alloc,
       (vector_resize bound dst0, left [ev_resize bound; ev_createCCtx])) /\
  DictCompress.compress dict src (dst0, t)
    = (Throw bad_alloc,
       (vector_resize bound dst0, left [ev_resize bound; ev_createCCtx])) /\
  Compress.compress_into cap src L (mem, t)
    = (Throw bad_alloc, (mem, left [ev_createCCtx])) /\
  DictCompress.compress_into dict cap src (mem, t)
    = (Throw bad_alloc, (mem, left [ev_createCCtx])).
Proof.
  intros Hno bound left.
  rewrite compress_run, dict_compress_run, compress_into_run,
    dict_compress_into_run, Hno.
  repeat split.
Qed.

(** X5. [Decompress::decompress], without and with a [DDict], returns
    exactly when the engine's code is no error, and then returns that
    code; it throws a plain [ZError], whose message is "compress error: "
    followed by the engine's name of the error, exactly when the code is
    an error; it throws [std::bad_alloc], leaving the memory as it was,
    exactly when the thread has no context and the engine can make none;
    and it never throws [ZUnknownSize].  In the first two cases the
    memory holds what the engine stored. *)
Theorem decompress_outcomes (dict : DDict.t) (cap : N) (src mem : buffer)
    (t : Thread) :
  match Decompress.decompress cap src (mem, t) with
  | (Return n, (mem', t')) =>
      exists ctx out ctx',
        dctx_of t = Some ctx /\
        ZSTD_decompressDCtx ctx cap src = (n, out, ctx') /\
        ZSTD_isError n = 0 /\ mem' = write_bytes mem out
  | (Throw (ZError msg), (mem', t')) =>
      exists ctx res out ctx',
        dctx_of t = Some ctx /\
        ZSTD_decompressDCtx ctx cap src = (res, out, ctx') /\
        ZSTD_isError res <> 0 /\
        msg = "compress error: " +:+ ZSTD_getErrorName res /\
        mem' = write_bytes mem out
  | (Throw bad_alloc, (mem', t')) =>
      dctx_of t = None /\ mem' = mem /\ decompress_instr t' = None
  | (Throw (ZUnknownSize _), _) => False
  end /\
  match DictDecompress.decompress dict cap src (mem, t) with
  | (Return n, (mem', t')) =>
      exists ctx out ctx',
        dctx_of t = Some ctx /\
        ZSTD_decompress_usingDDict ctx cap src (DDict.get dict)
          = (n, out, ctx') /\
        ZSTD_isError n = 0 /\ mem' = write_bytes mem out
  | (Throw (ZError msg), (mem', t')) =>
      exists ctx res out ctx',
        dctx_of t = Some ctx /\
        ZSTD_decompress_usingDDict ctx cap src (DDict.get dict)
          = (res, out, ctx') /\
        ZSTD_isError res <> 0 /\
        msg = "compress error: " +:+ ZSTD_getErrorName res /\
        mem' = write_bytes mem out
  | (Throw bad_alloc, (mem', t')) =>
      dctx_of t = None /\ mem' = mem /\ decompress_instr t' = None
  | (Throw (ZUnknownSize _), _) => False
  end.
Proof.
  rewrite decompress_run, dict_decompress_run.
  destruct (dctx_of t) as [ctx|]; [| repeat split].
  split.
  - destruct (ZSTD_decompressDCtx ctx cap src) as [[res out] ctx'] eqn:Hcall.
    destruct (to_bool (ZSTD_isError res)) eqn:Herr.
    + exists ctx, res, out, ctx'.
      split; [reflexivity |]. split; [exact Hcall |].
      split; [| split; reflexivity].
      intros H0. apply to_bool_false in H0. congruence.
    + exists ctx, out, ctx'.
      split; [reflexivity |]. split; [exact Hcall |].
      split; [now apply to_bool_false | reflexivity].
  - destruct (ZSTD_decompress_usingDDict ctx cap src (DDict.get dict))
      as [[res out] ctx'] eqn:Hcall.
    destruct (to_bool (ZSTD_isError res)) eqn:Herr.
    + exists ctx, res, out, ctx'.
      split; [reflexivity |]. split; [exact Hcall |].
      split; [| split; reflexivity].
      intros H0. apply to_bool_false in H0. congruence.
    + exists ctx, out, ctx'.
      split; [reflexivity |]. split; [exact Hcall |].
      split; [now apply to_bool_false | reflexivity].
Qed.

End Outcomes.

(** ** Round trips *)

Section RoundTrips.
Context {E : Engine} {DE : DictEngine}.

Lemma dict_compress_returns_written (dict : CDict.t) (src : buffer)
    (dst0 : buffer) (t : Thread) (frame : buffer) (t1 : Thread) :
  dict_compress_reports_written ->
  DictCompress.compress dict src (dst0, t) = (Return tt, (frame, t1)) ->
  exists ctx res ctx',
    ZSTD_compress_usingCDict ctx (Compress.compressbound (size_of src)) src
      (CDict.get dict) = (res, frame, ctx') /\
    ZSTD_isError res = 0 /\
    decompress_instr t1 = decompress_instr t.
Proof.
  intros Hwritten. rewrite dict_compress_run.
  destruct (cctx_of t) as [ctx|]; [| discriminate].
  destruct (ZSTD_compress_usingCDict ctx _ src _) as [[res out] ctx'] eqn:Hcall.
  destruct (to_bool (ZSTD_isError res)) eqn:Herr; [discriminate |].
  apply to_bool_false in Herr.
  destruct (Hwritten _ _ _ _ _ _ _ Hcall Herr) as [Hres Hcap].
  intros Hrun. injection Hrun as <- <-.
  assert (Hout : vector_resize res
                   (write_bytes
                      (vector_resize (Compress.compressbound (size_of src))
                         dst0) out) = out).
  { rewrite Hres. apply vector_resize_write_bytes.
    rewrite size_of_vector_resize. now rewrite <- Hres. }
  rewrite Hout. exists ctx, res, ctx'.
  repeat split; assumption || reflexivity.
Qed.

(** X6. Round trip with a dictionary: when a [CDict] and a [DDict] have
    been constructed from the same [TrainData], a payload compressed with
    the one into a vector and decompressed with the other into memory of
    sufficient capacity comes back byte for byte.  The engine is assumed
    to keep for the dictionary calls what it keeps for the plain ones. *)
Theorem dict_compress_decompress_roundtrip (data : TrainData.t) (level : Z)
    (cdict : CDict.t) (ddict : DDict.t) (P dst0 mem : buffer) (t : Thread)
    (dstCapacity : N) :
  dict_compress_reports_written ->
  dict_compress_fits_bound ->
  dict_decompress_inverts_compress ->
  CDict.ctor data level = Return cdict ->
  DDict.ctor data = Return ddict ->
  addressable P ->
  compress_ready t ->
  decompress_ready t ->
  size_of P <= dstCapacity ->
  dstCapacity <= size_of mem ->
  exists frame t1 mem' t2,
    DictCompress.compress cdict P (dst0, t) = (Return tt, (frame, t1)) /\
    DictDecompress.decompress ddict dstCapacity frame (mem, t1)
      = (Return (size_of P), (mem', t2)) /\
    take (length P) mem' = P.
Proof.
  intros Hwritten Hfits Hinv Hcd Hdd HP Hc Hd Hcap Hmem.
  unfold CDict.ctor in Hcd. unfold DDict.ctor in Hdd.
  destruct (ZSTD_createCDict _ _ level) as [cd|] eqn:Hmkc; [| discriminate].
  destruct (ZSTD_createDDict _ _) as [dd|] eqn:Hmkd; [| discriminate].
  injection Hcd as <-. injection Hdd as <-.
  destruct (cctx_of_ready t Hc) as [ctx Hctx].
  destruct (dctx_of_ready t Hd) as [dctx Hdctx].
  destruct (DictCompress.compress {| CDict.mDict := cd |} P (dst0, t))
    as [r [frame t1]] eqn:Hrun.
  assert (Hok : r = Return tt).
  { rewrite dict_compress_run, Hctx in Hrun.
    destruct (ZSTD_compress_usingCDict ctx _ P _) as [[res out] ctx']
      eqn:Hcall.
    assert (Herr : ZSTD_isError res = 0).
    { eapply Hfits; [exact HP | | exact Hcall].
      unfold Compress.compressbound. lia. }
    apply to_bool_false in Herr. rewrite Herr in Hrun.
    now injection Hrun as <- _. }
  subst r.
  destruct (dict_compress_returns_written _ _ _ _ _ _ Hwritten Hrun)
    as (ctx0 & res & ctx' & Hcall & Herr & Hdinst).
  destruct (Hinv _ _ _ _ _ _ _ _ _ _ _ dctx dstCapacity
              Hmkc Hmkd Hcall Herr HP Hcap) as [Hsize [dctx' Hdec]].
  exists frame, t1.
  rewrite dict_decompress_run.
  assert (Hdctx1 : dctx_of t1 = Some dctx).
  { unfold dctx_of in *. now rewrite Hdinst. }
  rewrite Hdctx1. cbn [DDict.get DDict.mDict]. rewrite Hdec.
  apply to_bool_false in Hsize. rewrite Hsize.
  eexists _, _. split; [reflexivity |]. split; [reflexivity |].
  cbn [fst]. apply take_write_bytes.
  unfold size_of in *. lia.
Qed.

(** X7. The vector that the overload taking a [CDict] returns is no
    longer than [compressbound] of the payload's length, for an engine
    whose returned size stays within the capacity it was given. *)
Theorem dict_compress_within_bound (dict : CDict.t) (P dst0 : buffer)
    (t : Thread) (frame : buffer) (t1 : Thread) :
  dict_compress_within_capacity ->
  DictCompress.compress dict P (dst0, t) = (Return tt, (frame, t1)) ->
  size_of frame <= Compress.compressbound (size_of P).
Proof.
  intros Hwithin. rewrite dict_compress_run.
  destruct (cctx_of t) as [ctx|]; [| discriminate].
  destruct (ZSTD_compress_usingCDict ctx _ P _) as [[res out] ctx'] eqn:Hcall.
  destruct (to_bool (ZSTD_isError res)) eqn:Herr; [discriminate |].
  apply to_bool_false in Herr.
  intros Hrun. injection Hrun as <- _.
  rewrite size_of_vector_resize.
  exact (Hwithin _ _ _ _ _ _ _ Hcall Herr).
Qed.

(** X8. Asking the frame for its size and decompressing into memory of
    just that size: when [frameContentSize] of a frame made by the
    buffer-managing [compress] returns [n], then [n] is the payload's
    length, and [decompress] with capacity [n] returns [n] and leaves the
    payload in the first [n] bytes. *)
Theorem size_query_then_decompress (P : buffer) (L : Z) (dst0 mem : buffer)
    (t : Thread) (frame : buffer) (t1 : Thread) (n : N) :
  compress_reports_written ->
  decompress_inverts_compress ->
  frame_declares_source_size ->
  addressable P ->
  decompress_ready t ->
  Compress.compress P L (dst0, t) = (Return tt, (frame, t1)) ->
  Decompress.frameContentSize frame = Return n ->
  n <= size_of mem ->
  n = size_of P /\
  exists mem' t2,
    Decompress.decompress n frame (mem, t1) = (Return n, (mem', t2)) /\
    take (N.to_nat n) mem' = P.
Proof.
  intros Hwritten Hinv Hdeclares HP Hd Hrun Hsize Hmem.
  destruct (compress_returns_written _ _ _ _ _ _ Hwritten Hrun)
    as (ctx & res & ctx' & _ & Hcall & Herr & _ & _ & Hdinst).
  assert (Hn : n = size_of P).
  { unfold Decompress.frameContentSize in Hsize.
    destruct (N.eqb_spec (ZSTD_getFrameContentSize frame)
                ZSTD_CONTENTSIZE_UNKNOWN) as [Hu|Hu]; [discriminate |].
    destruct (ZSTD_getFrameContentSize frame =? ZSTD_CONTENTSIZE_ERROR);
      [discriminate |].
    injection Hsize as <-.
    now destruct (Hdeclares _ _ _ _ _ _ _ Hcall Herr). }
  split; [exact Hn |]. subst n.
  destruct (dctx_of_ready t Hd) as [dctx Hdctx].
  destruct (Hinv _ _ _ _ _ _ _ dctx (size_of P) Hcall Herr HP (N.le_refl _))
    as [Hnoerr [dctx' Hdec]].
  rewrite decompress_run.
  assert (Hdctx1 : dctx_of t1 = Some dctx).
  { unfold dctx_of in *. now rewrite Hdinst. }
  rewrite Hdctx1, Hdec.
  apply to_bool_false in Hnoerr. rewrite Hnoerr.
  eexists _, _. split; [reflexivity |].
  unfold size_of at 1. rewrite Nat2N.id.
  apply take_write_bytes. unfold size_of in *. lia.
Qed.

(** X9. Whatever training did or did not do, a [CDict] and a [DDict]
    constructed from a [TrainData] of capacity [c] hand the engine the
    whole buffer, all [c] bytes of it, as the dictionary, and both the
    same bytes; each constructor throws [std::bad_alloc] exactly when the
    engine returns no dictionary. *)
Theorem dictionaries_take_whole_buffer (c : N)
    (calls : list TrainData.train_call) (t : Thread) (level : Z) :
  let data := fst (TrainData.train_all calls (TrainData.ctor c, t)) in
  size_of (TrainData.data data) = c /\
  (CDict.ctor data level = Throw bad_alloc <->
   ZSTD_createCDict (TrainData.data data) c level = None) /\
  (DDict.ctor data = Throw bad_alloc <->
   ZSTD_createDDict (TrainData.data data) c = None) /\
  (forall cdict, CDict.ctor data level = Return cdict <->
     ZSTD_createCDict (TrainData.data data) c level = Some (CDict.get cdict)) /\
  (forall ddict, DDict.ctor data = Return ddict <->
     ZSTD_createDDict (TrainData.data data) c = Some (DDict.get ddict)).
Proof.
  intros data.
  assert (Hsize : TrainData.size data = c).
  { unfold data. rewrite train_all_size. apply size_ctor. }
  unfold CDict.ctor, DDict.ctor. rewrite Hsize.
  split; [exact Hsize |].
  destruct (ZSTD_createCDict (TrainData.data data) c level) as [cd|];
    destruct (ZSTD_createDDict (TrainData.data data) c) as [dd|];
    repeat split; try discriminate; try reflexivity;
    try (intros Heq; injection Heq as <-; reflexivity);
    try (destruct cdict as [cd']; cbn [CDict.get CDict.mDict];
         intros Heq; injection Heq as <-; reflexivity);
    try (destruct ddict as [dd']; cbn [DDict.get DDict.mDict];
         intros Heq; injection Heq as <-; reflexivity).
Qed.

(** X14. Round trip through caller memory: compressing at a valid level
    into memory of capacity at least [compressbound(srcSize)] returns a
    length [n]; decompressing the first [n] bytes of that memory into
    memory of sufficient capacity gives the payload back. *)
Theorem compress_into_decompress_roundtrip (P : buffer) (L : Z)
    (memc memd : buffer) (t : Thread) (cap dcap : N) :
  compress_reports_written ->
  compress_fits_bound ->
  decompress_inverts_compress ->
  valid_level L ->
  addressable P ->
  compress_ready t ->
  decompress_ready t ->
  Compress.compressbound (size_of P) <= cap ->
  cap <= size_of memc ->
  size_of P <= dcap ->
  dcap <= size_of memd ->
  exists n memc' t1 memd' t2,
    Compress.compress_into cap P L (memc, t) = (Return n, (memc', t1)) /\
    Decompress.decompress dcap (take (N.to_nat n) memc') (memd, t1)
      = (Return (size_of P), (memd', t2)) /\
    take (length P) memd' = P.
Proof.
  intros Hwritten Hfits Hinv HL HP Hc Hd Hcap Hmemc Hdcap Hmemd.
  destruct (cctx_of_ready t Hc) as [ctx Hctx].
  destruct (dctx_of_ready t Hd) as [dctx Hdctx].
  rewrite compress_into_run, Hctx.
  destruct (ZSTD_compressCCtx ctx cap P L) as [[res out] ctx'] eqn:Hcall.
  assert (Herr : ZSTD_isError res = 0).
  { eapply Hfits; [exact HL | exact HP | exact Hcap | exact Hcall]. }
  destruct (Hwritten _ _ _ _ _ _ _ Hcall Herr) as [Hres Hle].
  destruct (Hinv _ _ _ _ _ _ _ dctx dcap Hcall Herr HP Hdcap)
    as [Hsize [dctx' Hdec]].
  assert (Hframe : take (N.to_nat res) (write_bytes memc out) = out).
  { rewrite Hres. unfold size_of at 1. rewrite Nat2N.id.
    apply take_write_bytes. unfold size_of in *. lia. }
  apply to_bool_false in Herr. rewrite Herr. cbv zeta.
  exists res. eexists _, _, _, _. split; [reflexivity |].
  rewrite Hframe, decompress_run. unfold dctx_of in *.
  cbn [compress_instr decompress_instr trace]. rewrite Hdctx, Hdec.
  apply to_bool_false in Hsize. rewrite Hsize.
  split; [reflexivity |].
  apply take_write_bytes. unfold size_of in *. lia.
Qed.

End RoundTrips.

(** ** Blocks that move dictionaries *)

Module DictBlockFacts.
Import Dict DictBlocks.

Lemma running_start (room : nat) : running 0 [] (empty_heap room).
Proof.
  unfold running. cbn. repeat split; constructor.
Qed.

Lemma lookup_points_to (P : object -> Prop) (x : string) (f : frame)
    (o : object) :
  Forall (fun xo => P (snd xo)) f -> lookup x f = Some o -> P o.
Proof.
  induction f as [| [y o'] f IH]; [discriminate |].
  intros Hall. apply Forall_cons in Hall as [Ho' Hall]. cbn [lookup].
  destruct (String.eqb x y).
  - intros Heq. injection Heq as <-. exact Ho'.
  - now apply IH.
Qed.

Lemma update_points_to (P : object -> Prop) (x : string) (o : object)
    (f : frame) :
  Forall (fun xo => P (snd xo)) f -> P o ->
  Forall (fun xo => P (snd xo)) (update x o f).
Proof.
  intros Hall Ho. induction f as [| [y o'] f IH]; [constructor |].
  apply Forall_cons in Hall as [Ho' Hall]. cbn [update].
  destruct (String.eqb x y); constructor; auto.
Qed.

Lemma length_update (x : string) (o : object) (f : frame) :
  length (update x o f) = length f.
Proof.
  induction f as [| [y o'] f IH]; [reflexivity |].
  cbn [update]. destruct (String.eqb x y); cbn [length]; congruence.
Qed.

(** A constructor that returns adds an object and a dictionary; one that
    throws adds neither. *)
Lemma running_guard_null (k : nat) (c : dict_class) (x : string) (f : frame)
    (h : EngineHeap) :
  running k f h ->
  match guard_null c (create h) with
  | (Return o, h') => running k ((x, o) :: f) h'
  | (Throw _, h') => running k f h'
  end.
Proof.
  intros (Hfreed & Hnodup & Hle & Hobj & Hlen).
  unfold guard_null, create. destruct (room h) as [| r]; cbn [fst snd].
  - repeat split; assumption.
  - unfold running. cbn [made freed length snd mDict].
    split; [exact Hfreed |]. split; [| split; [| split]].
    + constructor; [| exact Hnodup].
      intros Hin. rewrite Forall_forall in Hle.
      specialize (Hle _ Hin). rewrite SuccNat2Pos.id_succ in Hle. lia.
    + constructor; [rewrite SuccNat2Pos.id_succ; lia |].
      eapply Forall_impl; [exact Hle |]. cbn. intros a Ha. lia.
    + constructor.
      * cbn [snd mDict]. eexists. split; [reflexivity | now left].
      * eapply Forall_impl; [exact Hobj |]. cbn.
        intros xo (a & Ha & Hin). exists a. split; [exact Ha | now right].
    + lia.
Qed.

Lemma running_step (k : nat) (s : stmt) (f : frame) (h : EngineHeap)
    (r : outcome unit) (f' : frame) (h' : EngineHeap) :
  running k f h ->
  step s f h = Some (r, f', h') ->
  exists k',
    running k' f' h' /\
    (r = Return tt ->
     k' = (k + if is_move_construct s then 1 else 0)%nat).
Proof.
  intros Hrun.
  destruct s as [x data level | x data | y x | y x]; cbn [step].
  - destruct (declared x f); [discriminate |].
    unfold CDict_ctor, ZSTD_createCDict.
    pose proof (running_guard_null k CDict x f h Hrun) as Hg.
    destruct (guard_null CDict (create h)) as [[o | e] h1];
      intros Hstep; injection Hstep as <- <- <-;
      exists k; (split; [exact Hg |]); cbn; intros; lia || discriminate.
  - destruct (declared x f); [discriminate |].
    unfold DDict_ctor, ZSTD_createDDict.
    pose proof (running_guard_null k DDict x f h Hrun) as Hg.
    destruct (guard_null DDict (create h)) as [[o | e] h1];
      intros Hstep; injection Hstep as <- <- <-;
      exists k; (split; [exact Hg |]); cbn; intros; lia || discriminate.
  - destruct (declared y f); [discriminate |].
    destruct (lookup x f) as [other|] eqn:Hx; [| discriminate].
    intros Hstep. injection Hstep as <- <- <-.
    destruct Hrun as (Hfreed & Hnodup & Hle & Hobj & Hlen).
    exists (S k). split; [| cbn; intros; lia].
    repeat split; try assumption.
    + constructor; [| exact Hobj]. cbn [snd move_ctor mDict].
      exact (lookup_points_to
               (fun o => exists a, mDict o = Some a /\ In a (made h))
               x f other Hobj Hx).
    + cbn [length]. lia.
  - destruct (lookup y f) as [this|] eqn:Hy; [| discriminate].
    destruct (lookup x f) as [other|] eqn:Hx; [| discriminate].
    destruct (same_class (class_of this) (class_of other)); [| discriminate].
    intros Hstep. injection Hstep as <- <- <-.
    destruct Hrun as (Hfreed & Hnodup & Hle & Hobj & Hlen).
    exists k. split; [| cbn; intros; lia].
    repeat split; try assumption.
    + apply (update_points_to
               (fun o => exists a, mDict o = Some a /\ In a (made h)));
        [exact Hobj |].
      cbn [move_assign mDict].
      exact (lookup_points_to
               (fun o => exists a, mDict o = Some a /\ In a (made h))
               x f other Hobj Hx).
    + now rewrite length_update.
Qed.

Lemma running_exec (prog : list stmt) (k : nat) (f : frame) (h : EngineHeap)
    (r : outcome unit) (f' : frame) (h' : EngineHeap) :
  running k f h ->
  exec prog f h = Some (r, f', h') ->
  exists k',
    running k' f' h' /\
    (r = Return tt -> k' = (k + move_constructions prog)%nat).
Proof.
  revert k f h. induction prog as [| s prog IH]; intros k f h Hrun.
  - cbn [exec]. intros Hexec. injection Hexec as <- <- <-.
    exists k. split; [exact Hrun |]. intros _. unfold move_constructions.
    rewrite filter_nil. cbn. lia.
  - cbn [exec].
    destruct (step s f h) as [[[r1 f1] h1] |] eqn:Hstep; [| discriminate].
    destruct (running_step _ _ _ _ _ _ _ Hrun Hstep) as (k1 & Hrun1 & Hk1).
    destruct r1 as [[] | e].
    + intros Hexec.
      destruct (IH _ _ _ Hrun1 Hexec) as (k' & Hrun' & Hk').
      exists k'. split; [exact Hrun' |].
      intros Hr. rewrite (Hk' Hr), (Hk1 eq_refl).
      unfold move_constructions.
      destruct (is_move_construct s) eqn:Hs.
      * rewrite filter_cons_True by exact Hs. cbn [length]. lia.
      * rewrite filter_cons_False by (rewrite Hs; discriminate). lia.
    + intros Hexec. injection Hexec as <- <- <-.
      exists k1. split; [exact Hrun1 | discriminate].
Qed.

Lemma owned_handles (f : frame) (h : EngineHeap) :
  Forall (fun xo => exists a, mDict (snd xo) = Some a /\ In a (made h)) f ->
  exists l,
    owned f = map Some l /\ length l = length f /\
    (forall a, In a l -> In a (made h)).
Proof.
  induction f as [| [x o] f IH]; intros Hall.
  - exists []. repeat split. intros a [].
  - apply Forall_cons in Hall as [(a & Ha & Hin) Hall].
    destruct (IH Hall) as (l & Hl & Hlen & Hsub).
    exists (a :: l). split; [| split].
    + unfold owned in *. cbn [map snd] in *. now rewrite Ha, Hl.
    + cbn [length]. now rewrite Hlen.
    + intros b [<- | Hb]; auto.
Qed.

(** What a block has done by the time it is left. *)
Lemma block_summary (prog : list stmt) (room : nat) (r : outcome unit)
    (h : EngineHeap) :
  run_block prog (empty_heap room) = Some (r, h) ->
  NoDup (made h) /\
  (forall a, In a (freed h) -> In a (made h)) /\
  (r = Return tt ->
   length (freed h) = (length (made h) + move_constructions prog)%nat).
Proof.
  unfold run_block.
  destruct (exec prog [] (empty_heap room)) as [[[r1 f1] h1] |] eqn:Hexec;
    [| discriminate].
  intros Hrun. injection Hrun as <- <-.
  destruct (running_exec _ _ _ _ _ _ _ (running_start room) Hexec)
    as (k & (Hfreed & Hnodup & _ & Hobj & Hlen) & Hk).
  destruct (owned_handles f1 h1 Hobj) as (l & Hl & Hlenl & Hsub).
  destruct (DictFacts.leave_frees f1 h1 l Hl) as [Hmade Hfr].
  rewrite Hmade, Hfr, Hfreed, app_nil_r.
  split; [exact Hnodup |]. split.
  - intros a Ha. apply Hsub. now apply in_rev.
  - intros Hr. rewrite length_rev, Hlenl, Hlen, (Hk Hr). reflexivity.
Qed.

(** Leaving the block is one free call per object, on the pointer the
    object holds. *)
Lemma leave_is_free_calls (f : frame) (h : EngineHeap) :
  leave f h = fold_left (fun h' p => free p h') (owned f) h.
Proof.
  revert h. induction f as [| [x o] f IH]; intros h; [reflexivity |].
  cbn [leave owned map fold_left snd]. now rewrite IH.
Qed.

(** X10. However a block constructs, move-constructs and move-assigns
    dictionaries, and whether it ends normally or by [std::bad_alloc],
    every object alive when the block is left holds a pointer that is not
    null and that the engine returned; the destructors make one free call
    per object, on that pointer, so no free call gets a null pointer or a
    pointer the engine did not make. *)
Theorem freed_only_what_engine_made (prog : list stmt) (room : nat)
    (r : outcome unit) (f : frame) (h : EngineHeap) :
  exec prog [] (empty_heap room) = Some (r, f, h) ->
  run_block prog (empty_heap room)
    = Some (r, fold_left (fun h' p => free p h') (owned f) h) /\
  Forall (fun p : pointer => exists a, p = Some a /\ In a (made h))
    (owned f) /\
  (forall a, In a (freed (leave f h)) -> In a (made (leave f h))).
Proof.
  intros Hexec.
  assert (Hrun : run_block prog (empty_heap room) = Some (r, leave f h)).
  { unfold run_block. now rewrite Hexec. }
  split; [now rewrite <- leave_is_free_calls |].
  split.
  - destruct (running_exec _ _ _ _ _ _ _ (running_start room) Hexec)
      as (k & (_ & _ & _ & Hobj & _) & _).
    unfold owned. apply Forall_map. exact Hobj.
  - now destruct (block_summary _ _ _ _ Hrun) as (_ & Hsub & _).
Qed.

(** X11. In a block that runs to its end the engine is asked to free once
    per object: as many times as it made dictionaries, and once more for
    every move construction. *)
Theorem one_free_per_object (prog : list stmt) (room : nat) (h : EngineHeap) :
  run_block prog (empty_heap room) = Some (Return tt, h) ->
  length (freed h) = (length (made h) + move_constructions prog)%nat.
Proof.
  intros Hrun. destruct (block_summary _ _ _ _ Hrun) as (_ & _ & Hlen).
  now apply Hlen.
Qed.

(** X12. So a block that runs to its end and frees each dictionary
    exactly once has no move construction in it: any move construction
    makes some dictionary be freed more than once or another never. *)
Theorem freed_once_only_without_move_construction (prog : list stmt)
    (room : nat) (h : EngineHeap) :
  run_block prog (empty_heap room) = Some (Return tt, h) ->
  each_freed_once h ->
  move_constructions prog = 0%nat.
Proof.
  intros Hrun Honce.
  destruct (block_summary _ _ _ _ Hrun) as (Hnodup & Hsub & Hlen).
  specialize (Hlen eq_refl).
  assert (Hnodupf : NoDup (freed h)).
  { apply NoDup_ListNoDup. apply (List.NoDup_count_occ Pos.eq_dec).
    intros a. destruct (in_dec Pos.eq_dec a (freed h)) as [Hin | Hout].
    - specialize (Honce a (Hsub a Hin)). unfold times_freed in Honce. lia.
    - apply (count_occ_not_In Pos.eq_dec) in Hout. lia. }
  assert (Hperm : freed h ≡ₚ made h).
  { apply NoDup_Permutation; [exact Hnodupf | exact Hnodup |].
    intros a. rewrite !list_elem_of_In. split; [apply Hsub |].
    intros Hin. specialize (Honce a Hin). unfold times_freed in Honce.
    apply (count_occ_In Pos.eq_dec). lia. }
  apply Permutation_length in Hperm. lia.
Qed.

Lemma holders_count (a : handle) (f : frame) (l : list handle) :
  owned f = map Some l -> holders a f = count_occ Pos.eq_dec l a.
Proof.
  unfold holders, owned. revert l.
  induction f as [| [x o] f IH]; intros l Hown.
  - destruct l; [reflexivity | discriminate].
  - destruct l as [| b l]; [discriminate |].
    cbn [map snd] in Hown. injection Hown as Ho Hown.
    cbn [count_occ].
    destruct (Pos.eq_dec b a) as [-> | Hne].
    + rewrite filter_cons_True
        by (unfold points_to; cbn [snd]; rewrite Ho; apply Pos.eqb_refl).
      cbn [length]. now rewrite (IH l Hown).
    + rewrite filter_cons_False.
      * now apply IH.
      * unfold points_to. cbn [snd]. rewrite Ho.
        intros Heq. apply Pos.eqb_eq in Heq. congruence.
Qed.

(** X13. When a block is left, by its end or by an exception, each
    dictionary the engine made has been freed once per object that
    points to it at that moment: once if one object holds it, twice if a
    move has left two objects holding it, never if a move assignment has
    overwritten the only pointer to it. *)
Theorem freed_once_per_holder (prog : list stmt) (room : nat)
    (r : outcome unit) (f : frame) (h : EngineHeap) (a : handle) :
  exec prog [] (empty_heap room) = Some (r, f, h) ->
  run_block prog (empty_heap room) = Some (r, leave f h) /\
  times_freed a (leave f h) = holders a f.
Proof.
  intros Hexec. unfold run_block. rewrite Hexec. split; [reflexivity |].
  destruct (running_exec _ _ _ _ _ _ _ (running_start room) Hexec)
    as (k & (Hfreed & _ & _ & Hobj & _) & _).
  destruct (owned_handles f h Hobj) as (l & Hl & _ & _).
  destruct (DictFacts.leave_frees f h l Hl) as [_ Hfr].
  unfold times_freed, holders.
  rewrite Hfr, Hfreed, app_nil_r, count_occ_rev.
  symmetry. now apply holders_count.
Qed.

End DictBlockFacts.

(** ** The storing engine keeps the promises about dictionaries *)

Module StoreDictFacts.
Import ZstdErrors StoreEngine StoreDictEngine.

Lemma byte_eqb_refl (b : byte) : Byte.eqb b b = true.
Proof. now apply Byte.byte_dec_lb. Qed.

Lemma compress_usingCDict_ok (ctx cap : N) (src cdict : buffer)
    (res : N) (out : buffer) (ctx' : N) :
  compress_usingCDict ctx cap src cdict = (res, out, ctx') ->
  isError res = 0 ->
  size_of src + 1 <= cap /\ res = size_of src + 1 /\
  out = dict_tag cdict :: src.
Proof.
  unfold compress_usingCDict.
  destruct (N.ltb_spec cap (size_of src + 1)) as [Hlt|Hge];
    intros Hcall; injection Hcall as <- <- <-.
  - intros Herr. discriminate Herr.
  - intros _. repeat split. exact Hge.
Qed.

Lemma reports_written_dict :
  @dict_compress_reports_written StoreEngine.engine StoreDictEngine.engine.
Proof.
  intros ctx cap src cdict res out ctx' Hcall Herr.
  destruct (compress_usingCDict_ok _ _ _ _ _ _ _ Hcall Herr)
    as (Hcap & -> & ->).
  split; [now rewrite StoreFacts.size_of_cons | exact Hcap].
Qed.

Lemma within_capacity_dict :
  @dict_compress_within_capacity StoreEngine.engine StoreDictEngine.engine.
Proof.
  intros ctx cap src cdict res out ctx' Hcall Herr.
  now destruct (reports_written_dict _ _ _ _ _ _ _ Hcall Herr).
Qed.

Lemma fits_bound_dict :
  @dict_compress_fits_bound StoreEngine.engine StoreDictEngine.engine.
Proof.
  intros ctx cap src cdict res out ctx' Hsrc Hcap Hcall.
  cbn [ZSTD_compressBound ZSTD_compress_usingCDict ZSTD_isError
         StoreEngine.engine StoreDictEngine.engine] in *.
  unfold compressBound in Hcap. unfold compress_usingCDict in Hcall.
  destruct (N.ltb_spec cap (size_of src + 1)) as [Hlt|_]; [lia |].
  injection Hcall as <- _ _.
  apply StoreFacts.isError_addressable. unfold addressable in Hsrc. lia.
Qed.

Lemma inverts_dict :
  @dict_decompress_inverts_compress StoreEngine.engine StoreDictEngine.engine.
Proof.
  intros bytes size level cdict ddict ctx cap src res out ctx' dctx dcap
    Hmkc Hmkd Hcall Herr Hsrc Hdcap.
  cbn [ZSTD_createCDict ZSTD_createDDict StoreDictEngine.engine] in Hmkc, Hmkd.
  unfold createCDict in Hmkc. unfold createDDict in Hmkd.
  injection Hmkc as <-. injection Hmkd as <-.
  destruct (compress_usingCDict_ok _ _ _ _ _ _ _ Hcall Herr) as (_ & _ & ->).
  split.
  - apply StoreFacts.isError_addressable. unfold addressable in Hsrc. lia.
  - exists (dctx + 1).
    cbn [ZSTD_decompress_usingDDict StoreDictEngine.engine
           decompress_usingDDict].
    rewrite byte_eqb_refl. cbn [negb].
    destruct (N.ltb_spec dcap (size_of src)) as [Hlt|_]; [lia | reflexivity].
Qed.

End StoreDictFacts.

(** ** The further theorems at work *)

Lemma compress_without_context_witness :
  Compress.compress (E := ExhaustedEngine.engine) [x68; x69] 3
    ([x2a], fresh_thread)
  = (Throw bad_alloc,
     ([x2a; x00; x00],
      ExhaustedEngine.thread None None [ev_resize 3; ev_createCCtx])).
Proof.
  apply (proj1 (compress_without_context (E := ExhaustedEngine.engine)
                  (DE := ExhaustedEngine.dicts)
                  fresh_thread [x68; x69] 3 (ExhaustedEngine.cdict [x61])
                  [x2a] [xff] 1 eq_refl)).
Defined.

Lemma dict_compress_decompress_roundtrip_witness :
  exists frame t1 mem' t2,
    DictCompress.compress (E := StoreEngine.engine)
      (DE := StoreDictEngine.engine) (StoreDictEngine.cdict [x61; x62])
      [x68; x69] ([], fresh_thread) = (Return tt, (frame, t1)) /\
    DictDecompress.decompress (StoreDictEngine.ddict [x61; x62]) 4 frame
      (replicate 4 x00, t1) = (Return (size_of [x68; x69]), (mem', t2)) /\
    take (length [x68; x69]) mem' = [x68; x69].
Proof.
  apply (dict_compress_decompress_roundtrip (E := StoreEngine.engine)
           (DE := StoreDictEngine.engine)
           {| TrainData.mDictBuffer := [x61; x62] |} 3
           (StoreDictEngine.cdict [x61; x62])
           (StoreDictEngine.ddict [x61; x62])
           [x68; x69] [] (replicate 4 x00) fresh_thread 4).
  - exact StoreDictFacts.reports_written_dict.
  - exact StoreDictFacts.fits_bound_dict.
  - exact StoreDictFacts.inverts_dict.
  - reflexivity.
  - reflexivity.
  - unfold addressable. vm_compute. discriminate.
  - right. exists 0. reflexivity.
  - right. exists 0. reflexivity.
  - vm_compute. discriminate.
  - vm_compute. discriminate.
Defined.

Lemma dict_compress_within_bound_witness :
  size_of [x61; x68; x69] <=
  Compress.compressbound (E := StoreEngine.engine) (size_of [x68; x69]).
Proof.
  apply (dict_compress_within_bound (E := StoreEngine.engine)
           (DE := StoreDictEngine.engine) (StoreDictEngine.cdict [x61; x62])
           [x68; x69] [x2a] fresh_thread [x61; x68; x69]
           (StoreEngine.thread (Some 1) None
              [ev_resize 3; ev_createCCtx; ev_resize 3])).
  - exact StoreDictFacts.within_capacity_dict.
  - reflexivity.
Defined.

Lemma size_query_then_decompress_witness :
  2 = size_of [x68; x69] /\
  exists mem' t2,
    Decompress.decompress (E := StoreEngine.engine) 2 [x01; x68; x69]
      ([xff; xff; xff],
       StoreEngine.thread (Some 1) None
         [ev_resize 3; ev_createCCtx; ev_compressCCtx 3 [x68; x69] 3;
          ev_resize 3])
    = (Return 2, (mem', t2)) /\
    take (N.to_nat 2) mem' = [x68; x69].
Proof.
  apply (size_query_then_decompress (E := StoreEngine.engine)
           [x68; x69] 3 [x2a] [xff; xff; xff] fresh_thread [x01; x68; x69]
           (StoreEngine.thread (Some 1) None
              [ev_resize 3; ev_createCCtx; ev_compressCCtx 3 [x68; x69] 3;
               ev_resize 3]) 2).
  - exact StoreFacts.reports_written.
  - exact StoreFacts.inverts.
  - exact StoreFacts.declares.
  - unfold addressable. vm_compute. discriminate.
  - right. exists 0. reflexivity.
  - reflexivity.
  - reflexivity.
  - vm_compute. discriminate.
Defined.

Lemma freed_only_what_engine_made_witness :
  Forall (fun p : Dict.pointer =>
            exists a, p = Some a /\ In a [1%positive])
    [Some 1%positive; Some 1%positive].
Proof.
  apply (proj1 (proj2 (DictBlockFacts.freed_only_what_engine_made
           [Dict.new_CDict "a" (TrainData.ctor 8) 3;
            Dict.move_construct "b" "a"]
           1 (Return tt)
           [("b", {| Dict.class_of := Dict.CDict;
                     Dict.mDict := Some 1%positive |});
            ("a", {| Dict.class_of := Dict.CDict;
                     Dict.mDict := Some 1%positive |})]
           {| Dict.room := 0; Dict.made := [1%positive]; Dict.freed := [] |}
           eq_refl))).
Defined.

Lemma one_free_per_object_witness :
  length [1%positive; 1%positive]
  = (length [1%positive]
     + DictBlocks.move_constructions
         [Dict.new_CDict "a" (TrainData.ctor 8) 3;
          Dict.move_construct "b" "a"])%nat.
Proof.
  apply (DictBlockFacts.one_free_per_object
           [Dict.new_CDict "a" (TrainData.ctor 8) 3;
            Dict.move_construct "b" "a"]
           1
           {| Dict.room := 0; Dict.made := [1%positive];
              Dict.freed := [1%positive; 1%positive] |}).
  reflexivity.
Defined.

Lemma freed_once_only_without_move_construction_witness :
  DictBlocks.move_constructions
    [Dict.new_CDict "a" (TrainData.ctor 8) 3;
     Dict.new_DDict "b" (TrainData.ctor 8)] = 0%nat.
Proof.
  apply (DictBlockFacts.freed_once_only_without_move_construction
           [Dict.new_CDict "a" (TrainData.ctor 8) 3;
            Dict.new_DDict "b" (TrainData.ctor 8)]
           2
           {| Dict.room := 0; Dict.made := [2%positive; 1%positive];
              Dict.freed := [1%positive; 2%positive] |}).
  - reflexivity.
  - intros a [<- | [<- | []]]; reflexivity.
Defined.

Lemma freed_once_per_holder_witness :
  Dict.times_freed 1%positive
    (Dict.leave
       [("b", {| Dict.class_of := Dict.CDict; Dict.mDict := Some 1%positive |});
        ("a", {| Dict.class_of := Dict.CDict; Dict.mDict := Some 1%positive |})]
       {| Dict.room := 0; Dict.made := [1%positive]; Dict.freed := [] |})
  = DictBlocks.holders 1%positive
      [("b", {| Dict.class_of := Dict.CDict; Dict.mDict := Some 1%positive |});
       ("a", {| Dict.class_of := Dict.CDict; Dict.mDict := Some 1%positive |})].
Proof.
  apply (proj2 (DictBlockFacts.freed_once_per_holder
                  [Dict.new_CDict "a" (TrainData.ctor 8) 3;
                   Dict.move_construct "b" "a"]
                  1 (Return tt) _ _ 1%positive eq_refl)).
Defined.

Lemma compress_into_decompress_roundtrip_witness :
  exists n memc' t1 memd' t2,
    Compress.compress_into (E := StoreEngine.engine) 4 [x68; x69] 3
      (replicate 5 xff, fresh_thread) = (Return n, (memc', t1)) /\
    Decompress.decompress 2 (take (N.to_nat n) memc') ([x00; x00], t1)
      = (Return (size_of [x68; x69]), (memd', t2)) /\
    take (length [x68; x69]) memd' = [x68; x69].
Proof.
  apply (compress_into_decompress_roundtrip (E := StoreEngine.engine)
           [x68; x69] 3 (replicate 5 xff) [x00; x00] fresh_thread 4 2).
  - exact StoreFacts.reports_written.
  - exact StoreFacts.fits_bound.
  - exact StoreFacts.inverts.
  - unfold valid_level. cbn. lia.
  - unfold addressable. vm_compute. discriminate.
  - right. exists 0. reflexivity.
  - right. exists 0. reflexivity.
  - vm_compute. discriminate.
  - vm_compute. discriminate.
  - vm_compute. discriminate.
  - vm_compute. discriminate.
Defined.

(** ** Small runs with dictionaries and with several calls *)

Example dict_compress_hi :
  DictCompress.compress (E := StoreEngine.engine)
    (DE := StoreDictEngine.engine) (StoreDictEngine.cdict [x61; x62])
    [x68; x69] ([x2a], fresh_thread)
  = (Return tt,
     ([x61; x68; x69],
      StoreEngine.thread (Some 1) None
        [ev_resize 3; ev_createCCtx; ev_resize 3])).
Proof. reflexivity. Qed.

Example dict_decompress_other_dictionary :
  fst (DictDecompress.decompress (E := StoreEngine.engine)
         (DE := StoreDictEngine.engine) (StoreDictEngine.ddict [x7a]) 4
         [x61; x68; x69] ([xff; xff; xff; xff], fresh_thread))
  = Throw (ZError "compress error: Unspecified error code").
Proof. reflexivity. Qed.

Example three_calls_one_context :
  run_calls (E := StoreEngine.engine) (DE := StoreDictEngine.engine)
    [call_compress [] [x68] 3;
     call_decompress [xff] 1 [x01; x68];
     call_compress_dict_into (StoreDictEngine.cdict [x61]) [xff; xff] 2 [x69]]
    fresh_thread
  = StoreEngine.thread (Some 2) (Some 1)
      [ev_resize 2; ev_createCCtx; ev_compressCCtx 2 [x68] 3; ev_resize 2;
       ev_createDCtx; ev_decompressDCtx 1 [x01; x68]].
Proof. reflexivity. Qed.
